(** * milimg: the container parser and the alpha compositor

    A shallow embedding of the decode side of the milimg library:
    [parseMilimgContainer], [decodeAV1Frame], [frameToPNG],
    [combineRGBAFrames] and [decodeMilimg].

    The library is browser-only ([platform: 'browser'], [window.Buffer]), so
    [Buffer] is the npm [buffer] package (v6, the first with
    [readBigUInt64BE]) and the frames and canvases are the WebCodecs and
    OffscreenCanvas objects.  Their behaviour is written out below as far as
    the source relies on it:
    - a [Buffer] is the list of its bytes; [subarray] clamps, the [read*]
      methods coerce their offset with [>>> 0] and throw [RangeError] past
      the end, ['ascii'] decoding clears the top bit of each byte;
    - a number is the integer it denotes, rounded where a binary64 rounds;
    - [await] is sequencing over [Completion];
    - the decoder, the 2D contexts and the PNG encoder are fields of a
      [Platform]; the decoder is taken to be a function of the payload. *)

From Stdlib Require Import ZArith NArith Lia String Ascii Strings.Byte DecimalString.
From stdpp Require Import base list.

Local Open Scope Z_scope.

(** ** Exceptions and completions *)

(** The source only throws [new Error(msg)]; the [buffer] package throws
    [RangeError] from its bounds checks (its message is not modelled); the
    browser rejects with a [DOMException]. *)
Inductive JsError : Type :=
| Error (message : string)
| RangeError
| DOMException (message : string).

(** The outcome of a call (or of an awaited promise): a value, or a throw
    (a rejection). *)
Inductive Completion (A : Type) : Type :=
| Return (a : A)
| Throw (e : JsError).
Arguments Return {A} a.
Arguments Throw {A} e.

#[global] Instance Completion_bind : MBind Completion :=
  fun A B (k : A -> Completion B) (c : Completion A) =>
    match c with
    | Return a => k a
    | Throw e => Throw e
    end.

#[global] Instance Completion_fmap : FMap Completion :=
  fun A B (f : A -> B) (c : Completion A) =>
    match c with
    | Return a => Return (f a)
    | Throw e => Throw e
    end.

(** ** JavaScript numbers

    Every number the parser handles is a non-negative integer: a byte, a
    32-bit field, a 64-bit field pushed through [Number(...)], or a sum of
    those.  Such a number is modelled by the integer it denotes; what a
    binary64 cannot hold is rounded by [Number.round]. *)
Module Number.

(** Round to nearest, ties to even, onto the 53-bit significand of a
    binary64.  Integers below 2^53 are exact. *)
Definition round (n : Z) : Z :=
  if n <? 2 ^ 53 then n
  else
    let e := Z.log2 n - 52 in
    let q := Z.shiftr n e in
    let r := Z.land n (Z.ones e) in
    let half := Z.shiftl 1 (e - 1) in
    if (half <? r) || ((r =? half) && Z.odd q)
    then Z.shiftl (q + 1) e
    else Z.shiftl q e.

(** [Number(b)] for a BigInt [b]. *)
Definition ofBigInt (b : Z) : Z := round b.

(** [a + b]. *)
Definition add (a b : Z) : Z := round (a + b).

(** [n >>> 0]. *)
Definition toUint32 (n : Z) : Z := n mod 2 ^ 32.

(** [`${n}`] for an integer below 2^53: its decimal digits. *)
Definition toString (n : Z) : string := NilZero.string_of_int (Z.to_int n).

End Number.

(** ** The [buffer] package *)

Abbreviation Buffer := (list byte).

Module Buf.

(** [buf[i]]: [undefined] outside the buffer. *)
Definition index (buf : Buffer) (i : Z) : option Z :=
  if i <? 0 then None
  else (fun b => Z.of_N (Byte.to_N b)) <$> buf !! Z.to_nat i.

(** [buf[i]] where a bounds check has already passed. *)
Definition get (buf : Buffer) (i : Z) : Z := default 0 (index buf i).

(** How [%TypedArray%.prototype.subarray] clamps an argument. *)
Definition relativeIndex (len i : Z) : Z :=
  if i <? 0 then Z.max (len + i) 0 else Z.min i len.

(** [buf.subarray(start, end)]: never throws, clamps both ends to the
    buffer. *)
Definition subarray (buf : Buffer) (start end_ : Z) : Buffer :=
  let len := Z.of_nat (length buf) in
  let b := relativeIndex len start in
  let e := relativeIndex len end_ in
  take (Z.to_nat (Z.max (e - b) 0)) (drop (Z.to_nat b) buf).

(** [buf.toString('ascii')]: [String.fromCharCode(buf[i] & 0x7F)] for each
    byte. *)
Definition toString_ascii (buf : Buffer) : string :=
  string_of_list_ascii
    (map (fun b => ascii_of_N (N.land (Byte.to_N b) 127)) buf).

(** [checkOffset(offset, ext, length)]. *)
Definition checkOffset (offset ext len : Z) : Completion unit :=
  if len <? offset + ext then Throw RangeError else Return tt.

(** [buf.readUInt32BE(offset)]. *)
Definition readUInt32BE (buf : Buffer) (offset : Z) : Completion Z :=
  let offset := Number.toUint32 offset in
  _ ← checkOffset offset 4 (Z.of_nat (length buf));
  Return (get buf offset * 16777216
          + Z.lor (Z.lor (Z.shiftl (get buf (offset + 1)) 16)
                         (Z.shiftl (get buf (offset + 2)) 8))
                  (get buf (offset + 3))).

(** [buf.readBigUInt64BE(offset)]: the BigInt it returns. *)
Definition readBigUInt64BE (buf : Buffer) (offset : Z) : Completion Z :=
  let offset := Number.toUint32 offset in
  match index buf offset, index buf (offset + 7) with
  | Some first, Some last =>
      let hi := first * 2 ^ 24 + get buf (offset + 1) * 2 ^ 16
                + get buf (offset + 2) * 2 ^ 8 + get buf (offset + 3) in
      let lo := get buf (offset + 4) * 2 ^ 24 + get buf (offset + 5) * 2 ^ 16
                + get buf (offset + 6) * 2 ^ 8 + last in
      Return (Z.shiftl hi 32 + lo)
  | _, _ => Throw RangeError
  end.

End Buf.

(** ** The container parser *)

Record MilimgHeader : Type := {
  version : Z;
  width : Z;
  height : Z;
  colorPayload : Buffer;
  alphaPayload : option Buffer
}.

Definition parseMilimgContainer (buffer : Buffer) : Completion MilimgHeader :=
  let offset := 0 in
  let magic := Buf.toString_ascii (Buf.subarray buffer offset (Number.add offset 8)) in
  let offset := Number.add offset 8 in
  if negb (magic =? "Milimg00")%string then
    Throw (Error "File format error: invalid magic number")
  else
    version ← Buf.readUInt32BE buffer offset;
    let offset := Number.add offset 4 in
    if negb (version =? 0) && negb (version =? 1) then
      Throw (Error ("Unsupported version: " ++ Number.toString version)%string)
    else
      width ← Buf.readUInt32BE buffer offset;
      let offset := Number.add offset 4 in
      height ← Buf.readUInt32BE buffer offset;
      let offset := Number.add offset 4 in
      colorPayloadSize ← Number.ofBigInt <$> Buf.readBigUInt64BE buffer offset;
      let offset := Number.add offset 8 in
      let colorPayload := Buf.subarray buffer offset (Number.add offset colorPayloadSize) in
      let offset := Number.add offset colorPayloadSize in
      alphaPayload ←
        (if version =? 1 then
           alphaPayloadSize ← Number.ofBigInt <$> Buf.readBigUInt64BE buffer offset;
           let offset := Number.add offset 8 in
           Return (Some (Buf.subarray buffer offset (Number.add offset alphaPayloadSize)))
         else Return None);
      Return {| version := version; width := width; height := height;
                colorPayload := colorPayload; alphaPayload := alphaPayload |}.

(** ** Building containers for the examples *)

Definition byte_of_Z (z : Z) : byte :=
  default x00 (Byte.of_N (Z.to_N (z mod 256))).

Definition byteZ (b : byte) : Z := Z.of_N (Byte.to_N b).

(** The [n] big-endian bytes of [z]. *)
Fixpoint be_bytes (n : nat) (z : Z) : Buffer :=
  match n with
  | O => []
  | S n' => byte_of_Z (Z.shiftr z (8 * Z.of_nat n')) :: be_bytes n' z
  end.

Definition ascii_bytes (s : string) : Buffer :=
  map byte_of_ascii (list_ascii_of_string s).

Definition container_prefix (magic : string) (version width height colorSize : Z) : Buffer :=
  ascii_bytes magic ++ be_bytes 4 version ++ be_bytes 4 width ++ be_bytes 4 height
  ++ be_bytes 8 colorSize.

(** ** Frames and canvases

    The source reaches pixels only through a 2D canvas.  [ImageData.data]
    is a flat array of straight (not premultiplied) RGBA bytes, four per
    pixel, row after row; the canvas bitmap itself is premultiplied, so a
    pixel that crosses between the two is kept only as far as premultiplied
    storage keeps it ([canvasStore] below).  A [VideoFrame] shows one pixel
    at every position of its display area; drawing a frame puts those
    pixels on the canvas, and a frame made from a canvas shows the canvas's
    pixels.  No colour-space conversion is modelled. *)

Record Pixel : Type := { red : byte; green : byte; blue : byte; alpha : byte }.

Definition transparentBlack : Pixel :=
  {| red := x00; green := x00; blue := x00; alpha := x00 |}.

Record VideoFrame : Type := {
  displayWidth : nat;
  displayHeight : nat;
  pixelAt : nat -> nat -> Pixel   (* column, row *)
}.

Record OffscreenCanvas : Type := {
  canvasWidth : nat;
  canvasHeight : nat;
  bitmap : list byte
}.

(** ** The browser services the decoder calls *)

(** What a [VideoDecoder] fed one key chunk and flushed does: it hands
    frames to [output] and the flush resolves, or [error] runs, or the
    flush rejects. *)
Inductive DecoderRun : Type :=
| Flushed (frames : list VideoFrame)
| Errored (message : string)
| Rejected (e : JsError).

(** The canvases the source creates, by the variable that holds them. *)
Inductive CanvasRole : Type := PngCanvas | ColorCanvas | AlphaCanvas.

Record Platform : Type := {
  videoDecoder : Buffer -> DecoderRun;
  getContext2d : CanvasRole -> bool;          (* false: [getContext('2d')] is null *)
  convertToBlob : OffscreenCanvas -> Completion Buffer;  (* the PNG encoder *)
  canvasStore : Pixel -> Pixel   (* a straight RGBA pixel, through the bitmap and back *)
}.

(** What every premultiplied bitmap does, whatever its rounding: alpha is
    kept; an opaque pixel is kept whole; a fully transparent pixel loses
    its colour. *)
Definition premultipliedCanvas (P : Platform) : Prop :=
  (forall p : Pixel, alpha (canvasStore P p) = alpha p) /\
  (forall p : Pixel, alpha p = xff -> canvasStore P p = p) /\
  (forall p : Pixel, alpha p = x00 -> canvasStore P p = transparentBlack).

(** Every pixel of the frame's display area has alpha 255, as the frames of
    an AV1 decoder do. *)
Definition opaqueFrame (f : VideoFrame) : Prop :=
  forall x y : nat, (x < displayWidth f)%nat -> (y < displayHeight f)%nat ->
    alpha (pixelAt f x y) = xff.

Definition pixelBytes (p : Pixel) : list byte := [red p; green p; blue p; alpha p].

(** [data[i]] of a [Uint8ClampedArray]; [undefined] stores as 0. *)
Definition channel (data : list byte) (i : nat) : byte := default x00 (data !! i).

Definition pixelOfData (data : list byte) (k : nat) : Pixel :=
  {| red := channel data (4 * k); green := channel data (4 * k + 1);
     blue := channel data (4 * k + 2); alpha := channel data (4 * k + 3) |}.

(** The [n] pixels of [data], each through the bitmap and back. *)
Definition storeData (P : Platform) (n : nat) (data : list byte) : list byte :=
  flat_map (fun k => pixelBytes (canvasStore P (pixelOfData data k))) (seq 0 n).

(** [new OffscreenCanvas(w, h)]: transparent black. *)
Definition newOffscreenCanvas (w h : nat) : OffscreenCanvas :=
  {| canvasWidth := w; canvasHeight := h; bitmap := replicate (4 * (w * h)) x00 |}.

(** [ctx.drawImage(frame, 0, 0)]: the part of the frame that lies on the
    canvas replaces what was there; the rest of the canvas is kept.  The
    bitmap field holds the frame's pixels as drawn; what premultiplied
    storage costs is charged where straight RGBA is read out of the canvas
    or written into it ([getImageData], [putImageData]).  The frames the
    pipeline draws before encoding are opaque (the decoder's) or come from
    a canvas (the compositor's), and the bitmap holds those exactly. *)
Definition drawImage (c : OffscreenCanvas) (frame : VideoFrame) : OffscreenCanvas :=
  let w := canvasWidth c in
  {| canvasWidth := w; canvasHeight := canvasHeight c;
     bitmap :=
       flat_map
         (fun k =>
            let x := (k mod w)%nat in
            let y := (k / w)%nat in
            pixelBytes
              (if (x <? displayWidth frame)%nat && (y <? displayHeight frame)%nat
               then pixelAt frame x y
               else pixelOfData (bitmap c) k))
         (seq 0 (w * canvasHeight c)) |}.

(** [ctx.getImageData(0, 0, canvas.width, canvas.height).data]: the
    canvas's pixels read out of the premultiplied bitmap as straight RGBA,
    each as far as the bitmap kept it; an empty rectangle is an
    [IndexSizeError]. *)
Definition getImageData (P : Platform) (c : OffscreenCanvas) : Completion (list byte) :=
  if (canvasWidth c =? 0)%nat || (canvasHeight c =? 0)%nat
  then Throw (DOMException "IndexSizeError")
  else Return (storeData P (canvasWidth c * canvasHeight c) (bitmap c)).

(** [ctx.putImageData(imageData, 0, 0)] with image data of the canvas's
    size: straight RGBA written into the premultiplied bitmap, so a pixel
    whose alpha is below 255 keeps its colour only approximately, and one
    whose alpha is 0 not at all. *)
Definition putImageData (P : Platform) (c : OffscreenCanvas) (data : list byte)
  : OffscreenCanvas :=
  {| canvasWidth := canvasWidth c; canvasHeight := canvasHeight c;
     bitmap := storeData P (canvasWidth c * canvasHeight c) data |}.

(** [new VideoFrame(canvas, { timestamp: 0, alpha: 'keep' })]. *)
Definition VideoFrame_ofCanvas (c : OffscreenCanvas) : VideoFrame :=
  {| displayWidth := canvasWidth c; displayHeight := canvasHeight c;
     pixelAt := fun x y =>
       if (x <? canvasWidth c)%nat && (y <? canvasHeight c)%nat
       then pixelOfData (bitmap c) (y * canvasWidth c + x)
       else transparentBlack |}.

(** ** The decode pipeline *)

Definition decodeAV1Frame (P : Platform) (payload : Buffer) : Completion (option VideoFrame) :=
  if (length payload =? 0)%nat then Return None
  else
    match videoDecoder P payload with
    | Flushed frames => Return (last frames)
    | Errored message => Throw (Error ("VideoDecoder error: " ++ message)%string)
    | Rejected e => Throw e
    end.

Definition frameToPNG (P : Platform) (frame : VideoFrame) : Completion Buffer :=
  let canvas := newOffscreenCanvas (displayWidth frame) (displayHeight frame) in
  if negb (getContext2d P PngCanvas) then Throw (Error "Failed to get canvas context")
  else
    let canvas := drawImage canvas frame in
    convertToBlob P canvas.

(** [for (let i = 0; i < data.length; i += 4) data[i + 3] = alphaData[i]].
    A write past the end of a typed array is dropped; a read past the end
    is [undefined].  [fuel] bounds the number of iterations. *)
Fixpoint applyAlpha (fuel i : nat) (data alphaData : list byte) : list byte :=
  match fuel with
  | O => data
  | S fuel' =>
      if (i <? length data)%nat
      then applyAlpha fuel' (i + 4) (<[(i + 3)%nat := channel alphaData i]> data) alphaData
      else data
  end.

Definition combineRGBAFrames (P : Platform) (colorFrame alphaFrame : VideoFrame)
  : Completion VideoFrame :=
  let width := displayWidth colorFrame in
  let height := displayHeight colorFrame in
  let canvas := newOffscreenCanvas width height in
  if negb (getContext2d P ColorCanvas) then Throw (Error "Failed to get canvas context")
  else
    let canvas := drawImage canvas colorFrame in
    data ← getImageData P canvas;
    let alphaCanvas := newOffscreenCanvas width height in
    if negb (getContext2d P AlphaCanvas) then Throw (Error "Failed to get alpha canvas context")
    else
      let alphaCanvas := drawImage alphaCanvas alphaFrame in
      alphaData ← getImageData P alphaCanvas;
      let data := applyAlpha (length data) 0 data alphaData in
      let canvas := putImageData P canvas data in
      Return (VideoFrame_ofCanvas canvas).

(** The [close()] calls release frames and leave the result unchanged; they
    are not modelled. *)
Definition decodeMilimg (P : Platform) (buffer : Buffer) : Completion Buffer :=
  header ← parseMilimgContainer buffer;
  colorFrame ← decodeAV1Frame P (colorPayload header);
  match colorFrame with
  | None => Throw (Error "Failed to decode color frame")
  | Some colorFrame =>
      finalFrame ←
        (match version header =? 1, alphaPayload header with
         | true, Some payload =>
             alphaFrame ← decodeAV1Frame P payload;
             match alphaFrame with
             | Some alphaFrame => combineRGBAFrames P colorFrame alphaFrame
             | None => Return colorFrame
             end
         | _, _ => Return colorFrame
         end);
      frameToPNG P finalFrame
  end.

(** ** Frames and platforms for the examples *)

Definition solidFrame (w h : nat) (p : Pixel) : VideoFrame :=
  {| displayWidth := w; displayHeight := h; pixelAt := fun _ _ => p |}.

Definition u8 (z : Z) : byte := byte_of_Z z.

Definition rgba (r g b a : Z) : Pixel :=
  {| red := u8 r; green := u8 g; blue := u8 b; alpha := u8 a |}.

(** One premultiplied bitmap: 8 bits a channel, rounding to nearest both
    ways. *)
Definition premultiply (c a : Z) : Z := (c * a + 127) / 255.

Definition unpremultiply (c a : Z) : Z :=
  if a =? 0 then 0 else Z.min 255 ((c * 255 + a / 2) / a).

Definition premultiplied8 (p : Pixel) : Pixel :=
  let a := byteZ (alpha p) in
  let through (c : byte) := byte_of_Z (unpremultiply (premultiply (byteZ c) a) a) in
  {| red := through (red p); green := through (green p); blue := through (blue p);
     alpha := alpha p |}.

(** A browser whose decoder turns every payload into a 2x2 opaque frame
    filled with the payload's first byte, whose canvas is [premultiplied8]
    and whose PNG encoder is the identity on the bitmap. *)
Definition toyPlatform : Platform :=
  {| videoDecoder := fun payload =>
       Flushed [solidFrame 2 2 (let b := channel payload 0 in
                                {| red := b; green := b; blue := b; alpha := xff |})];
     getContext2d := fun _ => true;
     convertToBlob := fun c => Return (bitmap c);
     canvasStore := premultiplied8 |}.

(** ** The fixed layout, in the words of the format *)

(** The unsigned integer a run of bytes spells, most significant first. *)
Definition be_uint (bs : list byte) : Z :=
  fold_left (fun acc b => acc * 256 + byteZ b) bs 0.

(** The [n]-byte big-endian field at offset [off]. *)
Definition field (buf : Buffer) (off : Z) (n : nat) : Z :=
  be_uint (take n (drop (Z.to_nat off) buf)).

Definition MAGIC : string := "Milimg00".

Definition magic_ok (buf : Buffer) : bool :=
  (Buf.toString_ascii (take 8 buf) =? MAGIC)%string.

Definition invalidMagic : JsError := Error "File format error: invalid magic number".

Definition unsupportedVersion (v : Z) : JsError :=
  Error ("Unsupported version: " ++ Number.toString v)%string.

(** Every typed array is at most 2^53 - 1 bytes long (ECMAScript's bound on
    an array buffer). *)
Definition MAX_SAFE_INTEGER : Z := 2 ^ 53 - 1.

Definition addressable (buf : Buffer) : Prop :=
  Z.of_nat (length buf) <= MAX_SAFE_INTEGER.

(** The header the parser builds, from the clamped views it takes. *)
Definition headerOf (buf : Buffer) (alphaPayload : option Buffer) : MilimgHeader :=
  {| version := field buf 8 4;
     width := field buf 12 4;
     height := field buf 16 4;
     colorPayload :=
       Buf.subarray buf 28 (Number.add 28 (Number.round (field buf 20 8)));
     alphaPayload := alphaPayload |}.

(** ** Example containers *)

(** Version 0, declares a 1000-byte colour payload, carries 10 bytes. *)
Definition truncatedV0 : Buffer :=
  container_prefix MAGIC 0 3 2 1000 ++ replicate 10 xaa.

(** Version 1, declares a 1000-byte colour payload, carries 10 bytes. *)
Definition truncatedV1 : Buffer :=
  container_prefix MAGIC 1 3 2 1000 ++ replicate 10 xaa.

(** Version 1, whole colour payload, declares a 1000-byte alpha payload and
    carries 3 bytes of it. *)
Definition truncatedAlphaV1 : Buffer :=
  container_prefix MAGIC 1 3 2 2 ++ [x30; x39] ++ be_bytes 8 1000 ++ [x01; x02; x03].

(** Version 1, both payloads whole. *)
Definition completeV1 : Buffer :=
  container_prefix MAGIC 1 3 2 2 ++ [x30; x39] ++ be_bytes 8 3 ++ [x01; x02; x03].

(** Version 0, whole, but the first byte is 'M' with its top bit set. *)
Definition highBitMagic : Buffer :=
  xcd :: ascii_bytes "ilimg00" ++ be_bytes 4 0 ++ be_bytes 4 3 ++ be_bytes 4 2
  ++ be_bytes 8 2 ++ [x30; x39].

(** The version field holds 2. *)
Definition version2 : Buffer := container_prefix MAGIC 2 3 2 0.

(** ** The magic comparison, byte by byte *)

(** [b & 0x7F]. *)
Definition clearHighBit (b : byte) : N := N.land (Byte.to_N b) 127.

(** The bytes, each with its top bit cleared, are the characters of [s]. *)
Definition spells (bs : list byte) (s : string) : Prop :=
  map clearHighBit bs = map N_of_ascii (list_ascii_of_string s).

(** The buffer holds every byte its size fields declare. *)
Definition complete (buf : Buffer) : Prop :=
  let c := field buf 20 8 in
  28 + c <= Z.of_nat (length buf) /\
  (field buf 8 4 = 1 ->
   36 + c + field buf (28 + c) 8 <= Z.of_nat (length buf)).

(** The pixel the compositor is to put at column [x], row [y]. *)
Definition composite (cf af : VideoFrame) (x y : nat) : Pixel :=
  {| red := red (pixelAt cf x y);
     green := green (pixelAt cf x y);
     blue := blue (pixelAt cf x y);
     alpha := if (x <? displayWidth af)%nat && (y <? displayHeight af)%nat
              then red (pixelAt af x y) else x00 |}.

(** ** Example planes and containers for the pipeline *)

(** Colour RGBA = (10, 20, 30, 255) everywhere. *)
Definition colorPlane (w h : nat) : VideoFrame := solidFrame w h (rgba 10 20 30 255).

(** Red channel 128 everywhere. *)
Definition alphaPlane (w h : nat) : VideoFrame := solidFrame w h (rgba 128 128 128 255).

(** Version 0 with a zero-length colour payload. *)
Definition emptyColorV0 : Buffer := container_prefix MAGIC 0 3 2 0.

(** Version 1 with a two-byte colour payload and a zero-length alpha
    payload. *)
Definition emptyAlphaV1 : Buffer :=
  container_prefix MAGIC 1 3 2 2 ++ [x30; x39] ++ be_bytes 8 0.

(** Version 1, declares a colour payload of 2^32 bytes and carries the 8
    bytes of an alpha size after the header. *)
Definition wrappedV1 : Buffer :=
  container_prefix MAGIC 1 3 2 (2 ^ 32) ++ be_bytes 8 5.

(** ** A container laid out as the parser reads it

    Magic, version (1 with an alpha payload, 0 without), width, height,
    the colour size and the colour bytes; then, with an alpha payload, its
    size and its bytes. *)
Definition container (w h : Z) (color : Buffer) (alpha : option Buffer) : Buffer :=
  container_prefix MAGIC (match alpha with Some _ => 1 | None => 0 end) w h
    (Z.of_nat (length color))
  ++ color
  ++ match alpha with
     | Some a => be_bytes 8 (Z.of_nat (length a)) ++ a
     | None => []
     end.

(** * The definitions at work *)

Example round_below_2_53 : Number.round (2 ^ 53 - 1) = 2 ^ 53 - 1.
Proof. reflexivity. Qed.

Example round_ties_to_even :
  Number.round (2 ^ 53 + 1) = 2 ^ 53 /\ Number.round (2 ^ 53 + 3) = 2 ^ 53 + 4.
Proof. split; reflexivity. Qed.

Example round_u64_max : Number.ofBigInt (2 ^ 64 - 1) = 2 ^ 64.
Proof. reflexivity. Qed.

Example subarray_clamps :
  Buf.subarray [x01; x02; x03] 1 1000 = [x02; x03] /\
  Buf.subarray [x01; x02; x03] 5 1000 = [].
Proof. split; reflexivity. Qed.

Example ascii_clears_top_bit :
  Buf.toString_ascii [xcd; x69] = "Mi"%string.
Proof. reflexivity. Qed.

Example read_past_end : Buf.readUInt32BE [x00; x00; x01] 0 = Throw RangeError.
Proof. reflexivity. Qed.

Example read_u32 : Buf.readUInt32BE [xff; x01; x02; x03; x04] 1 = Return 16909060.
Proof. reflexivity. Qed.

Example parse_completeV1 :
  parseMilimgContainer completeV1 =
  Return {| version := 1; width := 3; height := 2; colorPayload := [x30; x39];
            alphaPayload := Some [x01; x02; x03] |}.
Proof. reflexivity. Qed.

Example parse_empty : parseMilimgContainer [] = Throw invalidMagic.
Proof. reflexivity. Qed.

Example parse_magic_only : parseMilimgContainer (ascii_bytes MAGIC) = Throw RangeError.
Proof. reflexivity. Qed.

(** A declared colour size of 2^32 moves the cursor to 2^32 + 28; the
    alpha size is then read at [(2^32 + 28) >>> 0 = 28], and the alpha view,
    taken at the unwrapped cursor, is empty. *)
Example parse_wrappedV1 :
  parseMilimgContainer wrappedV1 =
  Return {| version := 1; width := 3; height := 2;
            colorPayload := be_bytes 8 5; alphaPayload := Some [] |}.
Proof. reflexivity. Qed.

Example combine_4x4_2x2 :
  (fun out => (pixelAt out 0 0, pixelAt out 3 3))
    <$> combineRGBAFrames toyPlatform (colorPlane 4 4) (alphaPlane 2 2)
  = Return (rgba 10 20 30 128, rgba 0 0 0 0).
Proof. reflexivity. Qed.

Example premultiplied8_loses_colour :
  premultiplied8 (rgba 100 200 50 1) = rgba 0 255 0 1 /\
  premultiplied8 (rgba 100 200 50 0) = transparentBlack /\
  premultiplied8 (rgba 100 200 50 255) = rgba 100 200 50 255.
Proof. repeat split. Qed.

Example decode_version0 :
  decodeMilimg toyPlatform (container_prefix MAGIC 0 3 2 1 ++ [x07]) =
  Return (concat (replicate 4 [x07; x07; x07; xff])).
Proof. reflexivity. Qed.

(** * Facts about the [buffer] primitives *)

Section BufFacts.

Implicit Types (buf : Buffer) (b : byte).

Lemma byteZ_range b : 0 <= byteZ b < 256.
Proof.
  unfold byteZ. pose proof (Byte.to_N_bounded b) as H.
  revert H. generalize (Byte.to_N b). intros n H. lia.
Qed.

Lemma lor_shiftl_add (hi lo k : Z) :
  0 <= k -> 0 <= lo < 2 ^ k -> Z.lor (Z.shiftl hi k) lo = hi * 2 ^ k + lo.
Proof.
  intros Hk Hlo.
  rewrite Z.shiftl_mul_pow2 by lia.
  rewrite <- Z.lxor_lor, <- Z.add_nocarry_lxor; try reflexivity.
  all: rewrite <- Z.shiftl_mul_pow2 by lia.
  all: apply Z.bits_inj'; intros n Hn; rewrite Z.land_spec, Z.bits_0.
  all: destruct (Z.lt_ge_cases n k) as [Hlt | Hge].
  all: try (rewrite Z.shiftl_spec_low by lia; reflexivity).
  all: assert (Z.testbit lo n = false) as ->
         by (destruct (Z.eq_dec lo 0) as [-> | ?];
             [ apply Z.bits_0
             | apply Z.bits_above_log2; [lia |];
               apply Z.log2_lt_pow2; [lia |];
               pose proof (Z.pow_le_mono_r 2 k n); lia ]).
  all: apply andb_false_r.
Qed.

Lemma index_drop buf (off : Z) (i : nat) :
  0 <= off ->
  Buf.index buf (off + Z.of_nat i) = byteZ <$> drop (Z.to_nat off) buf !! i.
Proof.
  intros Hoff. unfold Buf.index.
  destruct (Z.ltb_spec (off + Z.of_nat i) 0); [lia |].
  rewrite lookup_drop. f_equal. f_equal. lia.
Qed.

Lemma index_in_range buf (i : Z) :
  is_Some (Buf.index buf i) <-> 0 <= i < Z.of_nat (length buf).
Proof.
  unfold Buf.index. destruct (Z.ltb_spec i 0).
  - split; [intros [? ?]; discriminate | lia].
  - rewrite fmap_is_Some, lookup_lt_is_Some. lia.
Qed.

Lemma index_at buf (off : Z) (i : nat) b :
  0 <= off -> drop (Z.to_nat off) buf !! i = Some b ->
  Buf.index buf (off + Z.of_nat i) = Some (byteZ b).
Proof.
  intros Hoff Hb. rewrite index_drop, Hb by assumption. reflexivity.
Qed.

Lemma get_at buf (off : Z) (i : nat) b :
  0 <= off -> drop (Z.to_nat off) buf !! i = Some b ->
  Buf.get buf (off + Z.of_nat i) = byteZ b.
Proof.
  intros Hoff Hb. unfold Buf.get. rewrite index_drop, Hb by assumption.
  reflexivity.
Qed.

Lemma lor3_bytes (b1 b2 b3 : Z) :
  0 <= b1 -> 0 <= b2 < 256 -> 0 <= b3 < 256 ->
  Z.lor (Z.lor (Z.shiftl b1 16) (Z.shiftl b2 8)) b3 = b1 * 65536 + b2 * 256 + b3.
Proof.
  intros H1 H2 H3.
  rewrite (lor_shiftl_add b1 (Z.shiftl b2 8) 16);
    rewrite ?Z.shiftl_mul_pow2 by lia; try lia.
  replace (b1 * 2 ^ 16 + b2 * 2 ^ 8) with (Z.shiftl (b1 * 2 ^ 8 + b2) 8)
    by (rewrite Z.shiftl_mul_pow2 by lia; lia).
  rewrite lor_shiftl_add by lia. lia.
Qed.

Lemma readUInt32BE_eq buf (off : Z) :
  0 <= off < 2 ^ 32 ->
  Buf.readUInt32BE buf off =
  if Z.of_nat (length buf) <? off + 4 then Throw RangeError
  else Return (field buf off 4).
Proof.
  intros Hoff. unfold Buf.readUInt32BE, Buf.checkOffset, Number.toUint32.
  rewrite Z.mod_small by lia.
  destruct (Z.ltb_spec (Z.of_nat (length buf)) (off + 4)) as [Hshort | Hlong];
    [reflexivity |].
  cbn [mbind Completion_bind]. f_equal. unfold field.
  pose proof (length_drop buf (Z.to_nat off)) as Hlen.
  destruct (drop (Z.to_nat off) buf) as [| b0 [| b1 [| b2 [| b3 rest]]]] eqn:E;
    cbn [length] in Hlen; try lia.
  assert (Buf.get buf off = byteZ b0) as ->
    by (rewrite <- (Z.add_0_r off) at 1; apply (get_at buf off 0);
        [lia | rewrite E; reflexivity]).
  assert (Buf.get buf (off + 1) = byteZ b1) as ->
    by (apply (get_at buf off 1); [lia | rewrite E; reflexivity]).
  assert (Buf.get buf (off + 2) = byteZ b2) as ->
    by (apply (get_at buf off 2); [lia | rewrite E; reflexivity]).
  assert (Buf.get buf (off + 3) = byteZ b3) as ->
    by (apply (get_at buf off 3); [lia | rewrite E; reflexivity]).
  pose proof (byteZ_range b0). pose proof (byteZ_range b1).
  pose proof (byteZ_range b2). pose proof (byteZ_range b3).
  rewrite lor3_bytes by lia.
  unfold be_uint. cbn -[byteZ Z.mul Z.add]. rewrite take_0. cbn [fold_left]. lia.
Qed.

Lemma readBigUInt64BE_eq buf (off : Z) :
  0 <= off ->
  Buf.readBigUInt64BE buf off =
  let o := Number.toUint32 off in
  if Z.of_nat (length buf) <? o + 8 then Throw RangeError
  else Return (field buf o 8).
Proof.
  intros Hoff. unfold Buf.readBigUInt64BE. cbv zeta.
  set (o := Number.toUint32 off).
  assert (0 <= o) as Ho by (apply Z.mod_pos_bound; lia).
  destruct (Z.ltb_spec (Z.of_nat (length buf)) (o + 8)) as [Hshort | Hlong].
  - destruct (Buf.index buf o) as [first |]; [| reflexivity].
    destruct (Buf.index buf (o + 7)) as [last |] eqn:E7; [| reflexivity].
    assert (is_Some (Buf.index buf (o + 7))) as Hs by (rewrite E7; eauto).
    apply index_in_range in Hs. lia.
  - unfold field.
    pose proof (length_drop buf (Z.to_nat o)) as Hlen.
    destruct (drop (Z.to_nat o) buf)
      as [| b0 [| b1 [| b2 [| b3 [| b4 [| b5 [| b6 [| b7 rest]]]]]]]] eqn:E;
      cbn [length] in Hlen; try lia.
    assert (Buf.index buf o = Some (byteZ b0)) as ->
      by (replace o with (o + Z.of_nat 0) at 1 by lia;
          apply index_at; [lia | rewrite E; reflexivity]).
    assert (Buf.index buf (o + 7) = Some (byteZ b7)) as ->
      by (apply (index_at buf o 7); [lia | rewrite E; reflexivity]).
    assert (Buf.get buf (o + 1) = byteZ b1) as ->
      by (apply (get_at buf o 1); [lia | rewrite E; reflexivity]).
    assert (Buf.get buf (o + 2) = byteZ b2) as ->
      by (apply (get_at buf o 2); [lia | rewrite E; reflexivity]).
    assert (Buf.get buf (o + 3) = byteZ b3) as ->
      by (apply (get_at buf o 3); [lia | rewrite E; reflexivity]).
    assert (Buf.get buf (o + 4) = byteZ b4) as ->
      by (apply (get_at buf o 4); [lia | rewrite E; reflexivity]).
    assert (Buf.get buf (o + 5) = byteZ b5) as ->
      by (apply (get_at buf o 5); [lia | rewrite E; reflexivity]).
    assert (Buf.get buf (o + 6) = byteZ b6) as ->
      by (apply (get_at buf o 6); [lia | rewrite E; reflexivity]).
    f_equal. rewrite Z.shiftl_mul_pow2 by lia.
    unfold be_uint. cbn -[byteZ Z.mul Z.add]. rewrite take_0. cbn [fold_left]. lia.
Qed.

Lemma be_uint_snoc (bs : list byte) b :
  be_uint (bs ++ [b]) = be_uint bs * 256 + byteZ b.
Proof. unfold be_uint. rewrite fold_left_app. reflexivity. Qed.

Lemma be_uint_range (bs : list byte) : 0 <= be_uint bs < 256 ^ Z.of_nat (length bs).
Proof.
  induction bs as [| b bs IH] using rev_ind; [cbn; lia |].
  rewrite be_uint_snoc, length_app. cbn [length].
  replace (Z.of_nat (length bs + 1)) with (Z.of_nat (length bs) + 1) by lia.
  rewrite Z.pow_add_r by lia. pose proof (byteZ_range b). lia.
Qed.

Lemma field_range buf (off : Z) (n : nat) : 0 <= field buf off n < 256 ^ Z.of_nat n.
Proof.
  unfold field.
  pose proof (be_uint_range (take n (drop (Z.to_nat off) buf))) as H.
  pose proof (length_take (drop (Z.to_nat off) buf) n) as Hl.
  assert (256 ^ Z.of_nat (length (take n (drop (Z.to_nat off) buf))) <= 256 ^ Z.of_nat n)
    by (apply Z.pow_le_mono_r; lia).
  lia.
Qed.

Lemma subarray_take_drop buf (s e : Z) :
  0 <= s <= e ->
  Buf.subarray buf s e = take (Z.to_nat (e - s)) (drop (Z.to_nat s) buf).
Proof.
  intros H. unfold Buf.subarray, Buf.relativeIndex.
  destruct (Z.ltb_spec s 0); [lia |].
  destruct (Z.ltb_spec e 0); [lia |].
  destruct (Z.le_gt_cases (Z.of_nat (length buf)) s) as [Hout | Hin].
  - rewrite !drop_ge by lia. rewrite !take_nil. reflexivity.
  - rewrite (Z.min_l s) by lia.
    destruct (Z.le_gt_cases e (Z.of_nat (length buf))).
    + rewrite (Z.min_l e), Z.max_l by lia. reflexivity.
    + rewrite (Z.min_r e), Z.max_l by lia.
      rewrite !take_ge; [reflexivity | |]; rewrite length_drop; lia.
Qed.

Lemma toString_ascii_length buf :
  String.length (Buf.toString_ascii buf) = length buf.
Proof.
  unfold Buf.toString_ascii. induction buf as [| b buf IH]; [reflexivity |].
  cbn [map string_of_list_ascii String.length length]. rewrite IH. reflexivity.
Qed.

Lemma magic_ok_length buf : magic_ok buf = true -> 8 <= Z.of_nat (length buf).
Proof.
  unfold magic_ok. intros H. apply String.eqb_eq in H.
  apply (f_equal String.length) in H.
  rewrite toString_ascii_length, length_take in H.
  change (String.length MAGIC) with 8%nat in H. lia.
Qed.

End BufFacts.

(** * Facts about JavaScript numbers *)

Section NumberFacts.

Lemma round_small (n : Z) : n < 2 ^ 53 -> Number.round n = n.
Proof.
  intros H. unfold Number.round.
  destruct (Z.ltb_spec n (2 ^ 53)); [reflexivity | lia].
Qed.

Lemma round_large (n : Z) : 2 ^ 53 <= n -> 2 ^ 53 <= Number.round n.
Proof.
  intros H. unfold Number.round.
  destruct (Z.ltb_spec n (2 ^ 53)); [lia |]. cbv zeta.
  set (e := Z.log2 n - 52).
  assert (53 <= Z.log2 n) as Hlog by (apply Z.log2_le_pow2; lia).
  assert (1 <= e) as He by (unfold e; lia).
  assert (2 ^ 52 <= Z.shiftr n e) as Hq.
  { rewrite Z.shiftr_div_pow2 by lia.
    destruct (Z.log2_spec n) as [Hlo _]; [lia |].
    replace (Z.log2 n) with (52 + e) in Hlo by (unfold e; lia).
    rewrite Z.pow_add_r in Hlo by lia.
    apply Z.div_le_lower_bound; [apply Z.pow_pos_nonneg; lia | lia]. }
  assert (2 <= 2 ^ e) as Hp
    by (change 2 with (2 ^ 1) at 1; apply Z.pow_le_mono_r; lia).
  destruct (_ || _); rewrite Z.shiftl_mul_pow2 by lia; nia.
Qed.

Lemma round_ge_min (n : Z) : Z.min n (2 ^ 53) <= Number.round n.
Proof.
  destruct (Z.lt_ge_cases n (2 ^ 53)).
  - rewrite round_small by lia. lia.
  - pose proof (round_large n). lia.
Qed.

Lemma add_small (a b : Z) : a + b < 2 ^ 53 -> Number.add a b = a + b.
Proof. apply round_small. Qed.

Lemma round_nonneg (n : Z) : 0 <= n -> 0 <= Number.round n.
Proof. pose proof (round_ge_min n). lia. Qed.

End NumberFacts.

(** * The parser as a decision tree over the layout *)

Lemma parse_eq (buf : Buffer) :
  parseMilimgContainer buf =
  if negb (magic_ok buf) then Throw invalidMagic
  else if Z.of_nat (length buf) <? 12 then Throw RangeError
  else
    let v := field buf 8 4 in
    if negb (v =? 0) && negb (v =? 1) then Throw (unsupportedVersion v)
    else if Z.of_nat (length buf) <? 28 then Throw RangeError
    else
      let colorEnd := Number.add 28 (Number.round (field buf 20 8)) in
      if v =? 1 then
        let o := Number.toUint32 colorEnd in
        if Z.of_nat (length buf) <? o + 8 then Throw RangeError
        else
          let a := Number.round (field buf o 8) in
          let alphaStart := Number.add colorEnd 8 in
          Return (headerOf buf
                    (Some (Buf.subarray buf alphaStart (Number.add alphaStart a))))
      else Return (headerOf buf None).
Proof.
  unfold parseMilimgContainer. cbv zeta.
  change (Number.add 0 8) with 8.
  change (Number.add 8 4) with 12.
  change (Number.add 12 4) with 16.
  change (Number.add 16 4) with 20.
  change (Number.add 20 8) with 28.
  rewrite (subarray_take_drop buf 0 8) by lia.
  change (take (Z.to_nat (8 - 0)) (drop (Z.to_nat 0) buf)) with (take 8 buf).
  fold MAGIC. fold (magic_ok buf). fold invalidMagic.
  destruct (magic_ok buf) eqn:Hmagic; [| reflexivity]. cbn [negb].
  rewrite !readUInt32BE_eq by lia.
  destruct (Z.ltb_spec (Z.of_nat (length buf)) 12) as [H12 | H12].
  { destruct (Z.ltb_spec (Z.of_nat (length buf)) (8 + 4)); [reflexivity | lia]. }
  destruct (Z.ltb_spec (Z.of_nat (length buf)) (8 + 4)); [lia |].
  cbn [mbind Completion_bind]. fold (unsupportedVersion (field buf 8 4)).
  destruct (negb (field buf 8 4 =? 0) && negb (field buf 8 4 =? 1)); [reflexivity |].
  destruct (Z.ltb_spec (Z.of_nat (length buf)) 28) as [H28 | H28].
  { destruct (Z.ltb_spec (Z.of_nat (length buf)) (12 + 4)); [reflexivity |].
    cbn [mbind Completion_bind].
    destruct (Z.ltb_spec (Z.of_nat (length buf)) (16 + 4)); [reflexivity |].
    cbn [mbind Completion_bind].
    rewrite readBigUInt64BE_eq by lia. cbv zeta.
    change (Number.toUint32 20) with 20.
    destruct (Z.ltb_spec (Z.of_nat (length buf)) (20 + 8)); [reflexivity | lia]. }
  destruct (Z.ltb_spec (Z.of_nat (length buf)) (12 + 4)); [lia |].
  destruct (Z.ltb_spec (Z.of_nat (length buf)) (16 + 4)); [lia |].
  cbn [mbind Completion_bind].
  rewrite readBigUInt64BE_eq by lia. cbv zeta.
  change (Number.toUint32 20) with 20.
  destruct (Z.ltb_spec (Z.of_nat (length buf)) (20 + 8)); [lia |].
  cbn [fmap Completion_fmap mbind Completion_bind]. unfold Number.ofBigInt.
  pose proof (field_range buf 20 8) as Hc.
  pose proof (round_nonneg (field buf 20 8)) as Hrc.
  pose proof (round_nonneg (28 + Number.round (field buf 20 8))) as Hce.
  destruct (field buf 8 4 =? 1); [| reflexivity].
  rewrite readBigUInt64BE_eq by (unfold Number.add; lia). cbv zeta.
  destruct (Z.ltb_spec (Z.of_nat (length buf))
              (Number.toUint32 (Number.add 28 (Number.round (field buf 20 8))) + 8));
    reflexivity.
Qed.

(** What an accepted buffer went through. *)
Lemma parse_Return_inv (buf : Buffer) (h : MilimgHeader) :
  parseMilimgContainer buf = Return h ->
  magic_ok buf = true /\ 28 <= Z.of_nat (length buf) /\
  let colorEnd := Number.add 28 (Number.round (field buf 20 8)) in
  ((field buf 8 4 = 0 /\ h = headerOf buf None) \/
   (field buf 8 4 = 1 /\
    Number.toUint32 colorEnd + 8 <= Z.of_nat (length buf) /\
    h = headerOf buf
          (Some (Buf.subarray buf (Number.add colorEnd 8)
                   (Number.add (Number.add colorEnd 8)
                      (Number.round (field buf (Number.toUint32 colorEnd) 8))))))).
Proof.
  rewrite parse_eq. cbv zeta.
  destruct (magic_ok buf); cbn [negb]; [| discriminate].
  destruct (Z.ltb_spec (Z.of_nat (length buf)) 12); [discriminate |].
  destruct (Z.eqb_spec (field buf 8 4) 0) as [H0 | H0];
    destruct (Z.eqb_spec (field buf 8 4) 1) as [H1 | H1];
    cbn [negb andb]; try discriminate; try lia.
  all: destruct (Z.ltb_spec (Z.of_nat (length buf)) 28); [discriminate |].
  - intros [= <-]. auto.
  - destruct (Z.ltb_spec (Z.of_nat (length buf))
                (Number.toUint32 (Number.add 28 (Number.round (field buf 20 8))) + 8));
      [discriminate |].
    intros [= <-]. auto 6.
Qed.

(** The clamped view [subarray(s, s + n)] is the at most [n] bytes from
    [s]; rounding [n] to a double does not show on a buffer a browser can
    hold. *)
Lemma view_exact (buf : Buffer) (s n : Z) :
  addressable buf \/ s + n < 2 ^ 53 -> 0 <= s < 2 ^ 53 -> 0 <= n ->
  Buf.subarray buf s (Number.add s (Number.round n)) =
  take (Z.to_nat n) (drop (Z.to_nat s) buf).
Proof.
  unfold addressable, MAX_SAFE_INTEGER. intros Hlen Hs Hn.
  pose proof (round_ge_min n) as Hrn.
  pose proof (round_ge_min (s + Number.round n)) as Hre.
  unfold Number.add. rewrite subarray_take_drop by lia.
  destruct (Z.lt_ge_cases (s + n) (2 ^ 53)) as [Hsmall | Hbig].
  - rewrite (round_small n) by lia. rewrite round_small by lia.
    f_equal. lia.
  - rewrite !take_ge; [reflexivity | |]; rewrite length_drop; lia.
Qed.

(** Below 2^32 - 28 a declared colour size moves the cursor without
    rounding and without wrapping in [>>> 0]. *)
Lemma cursor_exact (c : Z) :
  0 <= c < 2 ^ 32 - 28 ->
  Number.add 28 (Number.round c) = 28 + c /\
  Number.toUint32 (28 + c) = 28 + c /\
  Number.add (28 + c) 8 = 36 + c.
Proof.
  intros Hc. rewrite (round_small c) by lia.
  rewrite !add_small by lia. unfold Number.toUint32.
  rewrite Z.mod_small by lia. lia.
Qed.

Lemma parse_v0 (buf : Buffer) :
  let c := field buf 20 8 in
  addressable buf \/ 28 + c < 2 ^ 53 ->
  magic_ok buf = true -> 28 <= Z.of_nat (length buf) -> field buf 8 4 = 0 ->
  parseMilimgContainer buf =
  Return {| version := 0; width := field buf 12 4; height := field buf 16 4;
            colorPayload := take (Z.to_nat c) (drop 28 buf);
            alphaPayload := None |}.
Proof.
  intros c Hfit Hmagic Hlen Hv. rewrite parse_eq, Hmagic, Hv. cbv zeta.
  cbn [negb Z.eqb andb].
  destruct (Z.ltb_spec (Z.of_nat (length buf)) 12); [lia |].
  destruct (Z.ltb_spec (Z.of_nat (length buf)) 28); [lia |].
  unfold headerOf. rewrite Hv.
  rewrite (view_exact buf 28 (field buf 20 8));
    [reflexivity | exact Hfit | lia | apply field_range].
Qed.

Lemma parse_v1 (buf : Buffer) :
  let c := field buf 20 8 in
  let a := field buf (28 + c) 8 in
  c < 2 ^ 32 - 28 ->
  addressable buf \/ 36 + c + a < 2 ^ 53 ->
  magic_ok buf = true -> 28 <= Z.of_nat (length buf) -> field buf 8 4 = 1 ->
  parseMilimgContainer buf =
  if Z.of_nat (length buf) <? 36 + c then Throw RangeError
  else
    Return {| version := 1; width := field buf 12 4; height := field buf 16 4;
              colorPayload := take (Z.to_nat c) (drop 28 buf);
              alphaPayload := Some (take (Z.to_nat a) (drop (Z.to_nat (36 + c)) buf)) |}.
Proof.
  intros c a Hc Hfit Hmagic Hlen Hv. rewrite parse_eq, Hmagic, Hv. cbv zeta.
  cbn [negb Z.eqb andb].
  destruct (Z.ltb_spec (Z.of_nat (length buf)) 12); [lia |].
  destruct (Z.ltb_spec (Z.of_nat (length buf)) 28); [lia |].
  pose proof (field_range buf 20 8) as Hc0. fold c in Hc0.
  pose proof (field_range buf (28 + c) 8) as Ha0. fold a in Ha0.
  destruct (cursor_exact c) as (E1 & E2 & E3); [lia |].
  fold c. rewrite E1, E2, E3. fold a.
  replace (28 + c + 8) with (36 + c) by lia.
  destruct (Z.ltb_spec (Z.of_nat (length buf)) (36 + c)); [reflexivity |].
  unfold headerOf. rewrite Hv. fold c. rewrite E1.
  rewrite <- E1 at 1.
  rewrite (view_exact buf 28 c); [| lia | lia | lia].
  rewrite (view_exact buf (36 + c) a); [reflexivity | | lia | lia].
  destruct Hfit; [left; assumption | right; lia].
Qed.

Lemma take8_app (B T : Buffer) :
  8 <= Z.of_nat (length B) -> take 8 (B ++ T) = take 8 B.
Proof. intros H. apply take_app_le. lia. Qed.

Lemma field_app (B T : Buffer) (off : Z) (n : nat) :
  0 <= off -> off + Z.of_nat n <= Z.of_nat (length B) ->
  field (B ++ T) off n = field B off n.
Proof.
  intros Hoff Hfit. unfold field. f_equal.
  rewrite drop_app_le by lia. apply take_app_le. rewrite length_drop. lia.
Qed.


Lemma toString_ascii_spells (bs : list byte) (s : string) :
  Buf.toString_ascii bs = s <-> spells bs s.
Proof.
  unfold Buf.toString_ascii, spells. split.
  - intros <-. rewrite list_ascii_of_string_of_list_ascii, map_map.
    apply map_ext. intros b. symmetry. apply N_ascii_embedding.
    unfold clearHighBit.
    assert (N.land (Byte.to_N b) 127 <= 127)%N as Hle
      by (destruct b; vm_compute; discriminate).
    revert Hle. generalize (N.land (Byte.to_N b) 127). intros n Hle. lia.
  - intros H. apply (f_equal (map ascii_of_N)) in H.
    rewrite !map_map in H.
    rewrite (map_ext (fun x => ascii_of_N (N_of_ascii x)) id) in H
      by (intros a; apply ascii_N_embedding).
    rewrite map_id in H. unfold clearHighBit in H. rewrite H.
    apply string_of_list_ascii_of_string.
Qed.

Lemma clearHighBit_ascii (b : byte) :
  (Byte.to_N b < 128)%N -> clearHighBit b = Byte.to_N b.
Proof. unfold clearHighBit. destruct b; vm_compute; intros H; congruence. Qed.

Lemma map_to_N_inj (xs ys : list byte) :
  map Byte.to_N xs = map Byte.to_N ys -> xs = ys.
Proof.
  revert ys. induction xs as [| x xs IH]; intros [| y ys] H;
    try discriminate; [reflexivity |].
  cbn [map] in H. injection H as Hxy Hrest.
  f_equal; [| apply IH; exact Hrest].
  assert (Some x = Some y) as [= ->]; [| reflexivity].
  rewrite <- (Byte.of_to_N x), <- (Byte.of_to_N y), Hxy. reflexivity.
Qed.

Lemma unsupported_not_magic (s : string) :
  Error ("Unsupported version: " ++ s)%string <> invalidMagic.
Proof. discriminate. Qed.

Lemma parse_magic_iff (buf : Buffer) :
  parseMilimgContainer buf = Throw invalidMagic <-> magic_ok buf = false.
Proof.
  rewrite parse_eq. cbv zeta.
  destruct (magic_ok buf); cbn [negb]; [| tauto].
  split; [| discriminate]. intros H. exfalso. revert H.
  destruct (_ <? 12); [discriminate |].
  destruct (_ && _); [intros [= H]; revert H; apply unsupported_not_magic |].
  destruct (_ <? 28); [discriminate |].
  destruct (_ =? 1); [| discriminate].
  destruct (_ <? _); discriminate.
Qed.

(** * The parser's checks *)

(** C4: the parser misses the exact comparison it sets out to make.  The
    first eight bytes of [highBitMagic] are not the bytes of "Milimg00"
    (the first is 0xCD, not 0x4D), and the parser does not fail with
    "File format error: invalid magic number" but returns a header:
    [toString('ascii')] clears the top bit of every byte before the
    comparison with 'Milimg00'. *)
Lemma high_bit_magic_is_accepted :
  take 8 highBitMagic <> ascii_bytes MAGIC /\
  parseMilimgContainer highBitMagic =
  Return {| version := 0; width := 3; height := 2;
            colorPayload := [x30; x39]; alphaPayload := None |}.
Proof. split; [discriminate | reflexivity]. Qed.

(** What the comparison at line 25 decides: the parser throws the magic
    error if and only if the first eight bytes, each with its top bit
    cleared, do not spell "Milimg00".  Only on bytes below 0x80 is that
    the comparison of the bytes themselves. *)
Lemma parse_magic_check (buf : Buffer) :
  (parseMilimgContainer buf = Throw invalidMagic <-> ~ spells (take 8 buf) MAGIC) /\
  (Forall (fun b => (Byte.to_N b < 128)%N) (take 8 buf) ->
   (spells (take 8 buf) MAGIC <-> take 8 buf = ascii_bytes MAGIC)).
Proof.
  split.
  - rewrite parse_magic_iff. unfold magic_ok.
    rewrite <- toString_ascii_spells.
    destruct (String.eqb_spec (Buf.toString_ascii (take 8 buf)) MAGIC);
      split; intros; congruence.
  - intros Hascii. unfold spells.
    assert (map clearHighBit (take 8 buf) = map Byte.to_N (take 8 buf)) as ->.
    { induction Hascii as [| b bs Hb _ IH]; [reflexivity |].
      cbn [map]. rewrite IH, clearHighBit_ascii by assumption. reflexivity. }
    split.
    + intros H.
      apply map_to_N_inj. exact H.
    + intros ->. reflexivity.
Qed.

(** C5: with a valid magic and a version field (the big-endian u32 at
    offset 8) that is neither 0 nor 1, the parser fails with "Unsupported
    version: " followed by that value in decimal (version 2 gives
    "Unsupported version: 2"); and whenever it fails with a message that
    starts "Unsupported version: ", the field is neither 0 nor 1 and the
    message carries it. *)
Theorem parse_unsupported_version (buf : Buffer) :
  (magic_ok buf = true -> 12 <= Z.of_nat (length buf) ->
   field buf 8 4 <> 0 -> field buf 8 4 <> 1 ->
   parseMilimgContainer buf = Throw (unsupportedVersion (field buf 8 4))) /\
  (forall s : string,
     parseMilimgContainer buf = Throw (Error ("Unsupported version: " ++ s)%string) ->
     field buf 8 4 <> 0 /\ field buf 8 4 <> 1 /\ s = Number.toString (field buf 8 4)).
Proof.
  rewrite parse_eq. cbv zeta. split.
  - intros -> Hlen H0 H1. cbn [negb].
    destruct (Z.ltb_spec (Z.of_nat (length buf)) 12); [lia |].
    destruct (Z.eqb_spec (field buf 8 4) 0); [lia |].
    destruct (Z.eqb_spec (field buf 8 4) 1); [lia |]. reflexivity.
  - intros s. destruct (magic_ok buf); cbn [negb]; [| discriminate].
    destruct (_ <? 12); [discriminate |].
    destruct (Z.eqb_spec (field buf 8 4) 0) as [H0 | H0];
      destruct (Z.eqb_spec (field buf 8 4) 1) as [H1 | H1]; cbn [negb andb].
    4: { unfold unsupportedVersion. intros [= H].
         repeat split; try assumption. symmetry. exact H. }
    all: destruct (_ <? 28); [discriminate |].
    all: try discriminate.
    all: destruct (_ <? _); discriminate.
Qed.

Lemma parse_unsupported_version_witness :
  parseMilimgContainer version2 = Throw (Error "Unsupported version: 2").
Proof.
  apply (proj1 (parse_unsupported_version version2)).
  - reflexivity.
  - vm_compute. discriminate.
  - vm_compute. discriminate.
  - vm_compute. discriminate.
Defined.

(** * The layout of an accepted buffer *)

(** C1, as stated, fails on the colour payload: [truncatedV0] declares 1000
    bytes, is accepted, and the header carries the 10 bytes the buffer
    holds. *)
Lemma truncated_color_payload_is_shorter_than_declared :
  exists h : MilimgHeader,
    parseMilimgContainer truncatedV0 = Return h /\
    field truncatedV0 20 8 = 1000 /\
    length (colorPayload h) = 10%nat.
Proof. eexists. split; [reflexivity |]. split; reflexivity. Qed.

(** C1, amended: for an accepted buffer, bytes 0-7 with their top bits
    cleared spell the magic; version, width and height are the big-endian
    u32 at offsets 8, 12 and 16; with [c] the big-endian u64 at offset 20,
    colorPayload is the at most [c] bytes from offset 28 (all [c] of them
    when the buffer holds them); alphaPayload is present exactly when
    version = 1 (absent when version = 0); and for version 1 with
    [c < 2^32 - 28] the alpha size is the u64 at [28 + c], inside the
    buffer, and alphaPayload is the at most that many bytes from
    [36 + c]. *)
Theorem parse_reads_fixed_layout (buf : Buffer) (h : MilimgHeader) :
  addressable buf ->
  parseMilimgContainer buf = Return h ->
  let c := field buf 20 8 in
  spells (take 8 buf) MAGIC /\
  28 <= Z.of_nat (length buf) /\
  version h = field buf 8 4 /\
  width h = field buf 12 4 /\
  height h = field buf 16 4 /\
  colorPayload h = take (Z.to_nat c) (drop 28 buf) /\
  (28 + c <= Z.of_nat (length buf) -> Z.of_nat (length (colorPayload h)) = c) /\
  (version h = 0 \/ version h = 1) /\
  (is_Some (alphaPayload h) <-> version h = 1) /\
  (version h = 1 -> c < 2 ^ 32 - 28 ->
   36 + c <= Z.of_nat (length buf) /\
   alphaPayload h =
   Some (take (Z.to_nat (field buf (28 + c) 8)) (drop (Z.to_nat (36 + c)) buf))).
Proof.
  intros Haddr Hparse c.
  pose proof (field_range buf 20 8) as Hc. fold c in Hc.
  destruct (parse_Return_inv buf h Hparse) as (Hmagic & Hlen & Hcase).
  assert (spells (take 8 buf) MAGIC) as Hspell
    by (apply toString_ascii_spells, String.eqb_eq; exact Hmagic).
  assert (28 + c <= Z.of_nat (length buf) ->
          Z.of_nat (length (take (Z.to_nat c) (drop 28 buf))) = c) as Hwhole
    by (intros Hfit; rewrite length_take, length_drop; lia).
  destruct Hcase as [[Hv _] | (Hv & _ & _)].
  - rewrite parse_v0 in Hparse by auto. injection Hparse as Hh. subst h.
    cbn [version width height colorPayload alphaPayload].
    repeat split; auto; try lia.
    intros [? [=]].
  - destruct (Z.lt_ge_cases c (2 ^ 32 - 28)) as [Hsmall | Hbig].
    + rewrite parse_v1 in Hparse by auto. fold c in Hparse.
      destruct (Z.ltb_spec (Z.of_nat (length buf)) (36 + c)); [discriminate |].
      injection Hparse as Hh. subst h.
      cbn [version width height colorPayload alphaPayload].
      repeat split; eauto; lia.
    + destruct (parse_Return_inv buf h Hparse) as (_ & _ & [[? _] | (_ & _ & ->)]);
        [lia |].
      unfold headerOf. cbn [version width height colorPayload alphaPayload].
      fold c. rewrite (view_exact buf 28 c) by (auto; lia).
      repeat split; eauto; lia.
Qed.

Lemma parse_reads_fixed_layout_witness :
  let h := {| version := 1; width := 3; height := 2; colorPayload := [x30; x39];
              alphaPayload := Some [x01; x02; x03] |} in
  parseMilimgContainer completeV1 = Return h /\
  version h = field completeV1 8 4 /\
  colorPayload h = take 2 (drop 28 completeV1) /\
  38 <= Z.of_nat (length completeV1) /\
  alphaPayload h = Some (take 3 (drop 38 completeV1)).
Proof.
  intros h.
  assert (addressable completeV1) as Haddr by (vm_compute; discriminate).
  assert (parseMilimgContainer completeV1 = Return h) as Hparse by reflexivity.
  destruct (parse_reads_fixed_layout completeV1 h Haddr Hparse)
    as (_ & _ & Hv & _ & _ & Hcolor & _ & _ & _ & Halpha).
  destruct Halpha as [Hsize Halpha]; [reflexivity | vm_compute; reflexivity |].
  repeat split; assumption.
Defined.

(** * Truncated payloads *)

(** C3, as stated, fails: [truncatedV0] declares a colour payload of 1000
    bytes, provides 10, and the parser returns a header. *)
Lemma truncated_container_is_accepted :
  field truncatedV0 20 8 = 1000 /\
  Z.of_nat (length truncatedV0) - 28 = 10 /\
  parseMilimgContainer truncatedV0 =
  Return {| version := 0; width := 3; height := 2;
            colorPayload := replicate 10 xaa; alphaPayload := None |}.
Proof. repeat split. Qed.

(** C3, amended: the parser has no truncation check of its own.  With a
    valid magic and [c] the declared colour size: a version-0 buffer that
    holds fewer than [c] bytes after offset 28 is accepted, and its
    colorPayload is all the bytes after offset 28; a version-1 buffer in the
    same state (and [c < 2^32 - 28]) fails with the [RangeError] of the
    alpha size read, not with a format error; a version-1 buffer that holds
    the colour payload and the alpha size but fewer alpha bytes than
    declared is accepted, and its alphaPayload is all the bytes after the
    alpha size field. *)
Theorem parse_truncated_payloads (buf : Buffer) :
  addressable buf -> magic_ok buf = true -> 28 <= Z.of_nat (length buf) ->
  let c := field buf 20 8 in
  let a := field buf (28 + c) 8 in
  (Z.of_nat (length buf) < 28 + c -> field buf 8 4 = 0 ->
   parseMilimgContainer buf =
   Return {| version := 0; width := field buf 12 4; height := field buf 16 4;
             colorPayload := drop 28 buf; alphaPayload := None |}) /\
  (Z.of_nat (length buf) < 28 + c -> field buf 8 4 = 1 -> c < 2 ^ 32 - 28 ->
   parseMilimgContainer buf = Throw RangeError) /\
  (36 + c <= Z.of_nat (length buf) -> Z.of_nat (length buf) < 36 + c + a ->
   field buf 8 4 = 1 -> c < 2 ^ 32 - 28 ->
   parseMilimgContainer buf =
   Return {| version := 1; width := field buf 12 4; height := field buf 16 4;
             colorPayload := take (Z.to_nat c) (drop 28 buf);
             alphaPayload := Some (drop (Z.to_nat (36 + c)) buf) |}).
Proof.
  intros Haddr Hmagic Hlen c a.
  pose proof (field_range buf 20 8) as Hc. fold c in Hc.
  repeat split.
  - intros Hshort Hv. rewrite parse_v0 by auto. fold c.
    rewrite take_ge by (rewrite length_drop; lia). reflexivity.
  - intros Hshort Hv Hsmall. rewrite parse_v1 by auto. fold c.
    destruct (Z.ltb_spec (Z.of_nat (length buf)) (36 + c)); [reflexivity | lia].
  - intros Hsize Hshort Hv Hsmall. rewrite parse_v1 by auto. fold c a.
    destruct (Z.ltb_spec (Z.of_nat (length buf)) (36 + c)); [lia |].
    rewrite (take_ge (drop (Z.to_nat (36 + c)) buf))
      by (rewrite length_drop; lia).
    reflexivity.
Qed.

Lemma parse_truncated_payloads_witness :
  parseMilimgContainer truncatedV0 =
    Return {| version := 0; width := 3; height := 2;
              colorPayload := replicate 10 xaa; alphaPayload := None |} /\
  parseMilimgContainer truncatedV1 = Throw RangeError /\
  parseMilimgContainer truncatedAlphaV1 =
    Return {| version := 1; width := 3; height := 2;
              colorPayload := [x30; x39]; alphaPayload := Some [x01; x02; x03] |}.
Proof.
  split; [| split].
  - apply (parse_truncated_payloads truncatedV0);
      try reflexivity; vm_compute; congruence.
  - apply (parse_truncated_payloads truncatedV1);
      try reflexivity; vm_compute; congruence.
  - apply (parse_truncated_payloads truncatedAlphaV1);
      try reflexivity; vm_compute; congruence.
Defined.

(** * Trailing bytes *)

Lemma magic_ok_app (B T : Buffer) :
  magic_ok B = true -> magic_ok (B ++ T) = true.
Proof.
  intros H. pose proof (magic_ok_length B H) as Hlen.
  unfold magic_ok. rewrite take8_app by assumption. exact H.
Qed.

(** C9, as stated, fails: [truncatedV0] is accepted, and one more byte
    after it changes the colour payload. *)
Lemma trailing_bytes_extend_truncated_payload :
  exists h h' : MilimgHeader,
    parseMilimgContainer truncatedV0 = Return h /\
    parseMilimgContainer (truncatedV0 ++ [x01]) = Return h' /\
    colorPayload h' = colorPayload h ++ [x01] /\
    colorPayload h' <> colorPayload h.
Proof.
  do 2 eexists. split; [reflexivity |]. split; [reflexivity |].
  split; [reflexivity | discriminate].
Qed.

(** C9, amended: for every accepted buffer B and every T, B ++ T is
    accepted too, with the same version, width and height; and when B is
    shorter than 2^32 bytes and holds every byte its size fields declare,
    the header of B ++ T is the header of B, payloads included.  (The
    payloads of a truncated B grow into T.) *)
Theorem parse_ignores_trailing_bytes (B T : Buffer) (h : MilimgHeader) :
  parseMilimgContainer B = Return h ->
  (exists h' : MilimgHeader,
     parseMilimgContainer (B ++ T) = Return h' /\
     version h' = version h /\ width h' = width h /\ height h' = height h) /\
  (Z.of_nat (length B) < 2 ^ 32 -> complete B ->
   parseMilimgContainer (B ++ T) = Return h).
Proof.
  intros Hparse.
  destruct (parse_Return_inv B h Hparse) as (Hmagic & Hlen & Hcase).
  pose proof (magic_ok_app B T Hmagic) as HmagicT.
  assert (Z.of_nat (length B) <= Z.of_nat (length (B ++ T))) as HlenT
    by (rewrite length_app; lia).
  pose proof (field_app B T 8 4) as F8.
  pose proof (field_app B T 12 4) as F12.
  pose proof (field_app B T 16 4) as F16.
  pose proof (field_app B T 20 8) as F20.
  split.
  - rewrite parse_eq, HmagicT. cbv zeta. cbn [negb].
    destruct (Z.ltb_spec (Z.of_nat (length (B ++ T))) 12); [lia |].
    destruct (Z.ltb_spec (Z.of_nat (length (B ++ T))) 28); [lia |].
    rewrite F8, F20 by lia.
    destruct Hcase as [[Hv ->] | (Hv & Hread & ->)]; rewrite Hv;
      cbn [Z.eqb negb andb].
    + eexists. split; [reflexivity |]. unfold headerOf.
      cbn [version width height]. rewrite F8, F12, F16 by lia. auto.
    + assert (0 <= Number.toUint32 (Number.add 28 (Number.round (field B 20 8))))
        by (apply Z.mod_pos_bound; lia).
      destruct (Z.ltb_spec (Z.of_nat (length (B ++ T)))
                  (Number.toUint32 (Number.add 28 (Number.round (field B 20 8))) + 8));
        [lia |].
      eexists. split; [reflexivity |]. unfold headerOf.
      cbn [version width height]. rewrite F8, F12, F16 by lia. auto.
  - intros H32 [Hcolor Halpha].
    pose proof (field_range B 20 8) as Hc.
    assert (forall n : nat, Z.of_nat n <= Z.of_nat (length B) - 28 ->
              take n (drop 28 (B ++ T)) = take n (drop 28 B)) as Hview.
    { intros n Hn. rewrite drop_app_le by lia.
      apply take_app_le. rewrite length_drop. lia. }
    destruct Hcase as [[Hv _] | (Hv & _ & _)].
    + rewrite parse_v0 in Hparse by (auto; lia). rewrite <- Hparse.
      rewrite parse_v0; rewrite ?F8, ?F12, ?F16, ?F20 by lia; auto; try lia.
      rewrite Hview by lia. reflexivity.
    + specialize (Halpha Hv).
      pose proof (field_range B (28 + field B 20 8) 8) as Ha.
      pose proof (field_app B T (28 + field B 20 8) 8) as Fa.
      rewrite parse_v1 in Hparse by (auto; lia).
      destruct (Z.ltb_spec (Z.of_nat (length B)) (36 + field B 20 8)); [lia |].
      rewrite <- Hparse.
      rewrite parse_v1; rewrite ?F8, ?F12, ?F16, ?F20 by lia;
        rewrite ?Fa by lia; auto; try lia.
      destruct (Z.ltb_spec (Z.of_nat (length (B ++ T))) (36 + field B 20 8)); [lia |].
      rewrite Hview by lia.
      rewrite drop_app_le by lia.
      rewrite (take_app_le (drop (Z.to_nat (36 + field B 20 8)) B))
        by (rewrite length_drop; lia).
      reflexivity.
Qed.

Lemma parse_ignores_trailing_bytes_witness :
  parseMilimgContainer (completeV1 ++ [xde; xad; xbe; xef]) =
  Return {| version := 1; width := 3; height := 2; colorPayload := [x30; x39];
            alphaPayload := Some [x01; x02; x03] |}.
Proof.
  apply (parse_ignores_trailing_bytes completeV1 [xde; xad; xbe; xef]).
  - reflexivity.
  - vm_compute. reflexivity.
  - split; [vm_compute; discriminate |].
    intros _. vm_compute. discriminate.
Defined.

(** * The compositor *)

Section Compositor.

Local Open Scope nat_scope.

Implicit Types (data alphaData : list byte) (f : nat -> Pixel).

(** The bytes of [n] pixels, one after the other. *)
Lemma raster_channel f (n s k c : nat) :
  k < n -> c < 4 ->
  flat_map (fun i => pixelBytes (f i)) (seq s n) !! (4 * k + c)
  = pixelBytes (f (s + k)) !! c.
Proof.
  revert s k. induction n as [| n IH]; intros s k Hk Hc; [lia |].
  cbn [seq flat_map]. destruct k as [| k].
  - rewrite lookup_app_l by (cbn; lia).
    replace (s + 0) with s by lia. reflexivity.
  - rewrite lookup_app_r by (cbn; lia).
    replace (4 * S k + c - length (pixelBytes (f s))) with (4 * k + c)
      by (cbn [pixelBytes length]; lia).
    rewrite IH by lia. replace (S s + k) with (s + S k) by lia. reflexivity.
Qed.

Lemma raster_pixel f (n k : nat) :
  k < n ->
  pixelOfData (flat_map (fun i => pixelBytes (f i)) (seq 0 n)) k = f k.
Proof.
  intros Hk. unfold pixelOfData, channel.
  replace (4 * k) with (4 * k + 0) at 1 by lia.
  rewrite !raster_channel by lia. cbn. destruct (f k). reflexivity.
Qed.

Lemma raster_length f (n : nat) :
  length (flat_map (fun i => pixelBytes (f i)) (seq 0 n)) = 4 * n.
Proof.
  rewrite (flat_map_constant_length (c := 4)) by reflexivity.
  rewrite length_seq. lia.
Qed.

Lemma channel_replicate (n i : nat) : channel (replicate n x00) i = x00.
Proof.
  unfold channel. destruct (replicate n x00 !! i) as [b |] eqn:E; [| reflexivity].
  apply lookup_replicate in E as [-> _]. reflexivity.
Qed.

Lemma cell_coordinates (w x y : nat) :
  x < w -> (y * w + x) mod w = x /\ (y * w + x) / w = y.
Proof.
  intros Hx. split; symmetry.
  - apply (Nat.mod_unique _ _ y); lia.
  - apply (Nat.div_unique _ _ _ x); lia.
Qed.

(** What is on a fresh canvas after one [drawImage(frame, 0, 0)]. *)
Lemma drawn_pixel (w h : nat) (frame : VideoFrame) (x y : nat) :
  x < w -> y < h ->
  pixelOfData (bitmap (drawImage (newOffscreenCanvas w h) frame)) (y * w + x)
  = if (x <? displayWidth frame) && (y <? displayHeight frame)
    then pixelAt frame x y else transparentBlack.
Proof.
  intros Hx Hy. unfold drawImage, newOffscreenCanvas.
  cbn [bitmap canvasWidth canvasHeight].
  rewrite (raster_pixel
             (fun k =>
                if (k mod w <? displayWidth frame) && (k / w <? displayHeight frame)
                then pixelAt frame (k mod w) (k / w)
                else pixelOfData (replicate (4 * (w * h)) x00) k))
    by nia.
  destruct (cell_coordinates w x y Hx) as [-> ->].
  destruct (_ && _); [reflexivity |].
  unfold pixelOfData. rewrite !channel_replicate. reflexivity.
Qed.

Lemma drawn_length (w h : nat) (frame : VideoFrame) :
  length (bitmap (drawImage (newOffscreenCanvas w h) frame)) = 4 * (w * h).
Proof. apply raster_length. Qed.

Lemma channel_insert data (i j : nat) (v : byte) :
  i < length data ->
  channel (<[i := v]> data) j = if decide (i = j) then v else channel data j.
Proof.
  intros Hi. unfold channel. destruct (decide (i = j)) as [-> | Hne].
  - rewrite list_lookup_insert_eq by assumption. reflexivity.
  - rewrite list_lookup_insert_ne by assumption. reflexivity.
Qed.

(** The loop, started at pixel [m] with enough fuel, stores the alpha
    plane's byte [4k] at [4k + 3] for every pixel [k] from [m] on and
    leaves every other byte alone. *)
Lemma applyAlpha_channels alphaData (n fuel m : nat) data :
  length data = 4 * n -> n <= m + fuel ->
  let r := applyAlpha fuel (4 * m) data alphaData in
  (forall k, m <= k < n -> channel r (4 * k + 3) = channel alphaData (4 * k)) /\
  (forall j, (forall k, m <= k < n -> j <> 4 * k + 3) -> channel r j = channel data j).
Proof.
  revert m data. induction fuel as [| fuel IH]; intros m data Hlen Hfuel r.
  - subst r. cbn [applyAlpha]. split; [intros; lia | reflexivity].
  - subst r. cbn [applyAlpha]. rewrite Hlen.
    destruct (Nat.ltb_spec (4 * m) (4 * n)) as [Hlt | Hge];
      [| split; [intros; lia | reflexivity]].
    replace (4 * m + 4) with (4 * S m) by lia.
    destruct (IH (S m) (<[4 * m + 3 := channel alphaData (4 * m)]> data))
      as [IHalpha IHrest]; [rewrite length_insert; exact Hlen | lia |].
    split.
    + intros k Hk. destruct (decide (k = m)) as [-> | Hne].
      * rewrite IHrest by (intros; lia).
        rewrite channel_insert by lia. rewrite decide_True by reflexivity.
        reflexivity.
      * apply IHalpha. lia.
    + intros j Hj. rewrite IHrest by (intros; apply Hj; lia).
      rewrite channel_insert by lia.
      rewrite decide_False; [reflexivity |]. apply not_eq_sym, Hj. lia.
Qed.

Lemma stored_pixel (P : Platform) (n k : nat) data :
  k < n -> pixelOfData (storeData P n data) k = canvasStore P (pixelOfData data k).
Proof. intros Hk. unfold storeData. apply raster_pixel. exact Hk. Qed.

Lemma stored_length (P : Platform) (n : nat) data :
  length (storeData P n data) = 4 * n.
Proof. apply raster_length. Qed.

Lemma getImageData_drawn (P : Platform) (w h : nat) (frame : VideoFrame) :
  0 < w -> 0 < h ->
  getImageData P (drawImage (newOffscreenCanvas w h) frame)
  = Return (storeData P (w * h) (bitmap (drawImage (newOffscreenCanvas w h) frame))).
Proof.
  intros Hw Hh. unfold getImageData.
  change (canvasWidth (drawImage (newOffscreenCanvas w h) frame)) with w.
  change (canvasHeight (drawImage (newOffscreenCanvas w h) frame)) with h.
  destruct (Nat.eqb_spec w 0); [lia |]. destruct (Nat.eqb_spec h 0); [lia |].
  reflexivity.
Qed.

(** Fuel beyond what the loop needs changes nothing; [length data], which
    [combineRGBAFrames] passes, is at least that. *)
Lemma applyAlpha_fuel alphaData (fuel i : nat) data :
  length data <= i + 4 * fuel ->
  applyAlpha (S fuel) i data alphaData = applyAlpha fuel i data alphaData.
Proof.
  revert i data. induction fuel as [| fuel IH]; intros i data Hfuel.
  - cbn [applyAlpha]. destruct (Nat.ltb_spec i (length data)); [lia | reflexivity].
  - change (applyAlpha (S (S fuel)) i data alphaData)
      with (if i <? length data
            then applyAlpha (S fuel) (i + 4)
                   (<[i + 3 := channel alphaData i]> data) alphaData
            else data).
    cbn [applyAlpha]. destruct (Nat.ltb_spec i (length data)); [| reflexivity].
    apply IH. rewrite length_insert. lia.
Qed.

(** What [getImageData] gives for an opaque frame drawn on a fresh canvas
    of any size: the frame's pixel where the frame covers the canvas,
    transparent black elsewhere. *)
Lemma read_drawn_pixel (P : Platform) (w h : nat) (frame : VideoFrame) (x y : nat) :
  premultipliedCanvas P -> opaqueFrame frame ->
  x < w -> y < h ->
  pixelOfData (storeData P (w * h) (bitmap (drawImage (newOffscreenCanvas w h) frame)))
    (y * w + x)
  = if (x <? displayWidth frame) && (y <? displayHeight frame)
    then pixelAt frame x y else transparentBlack.
Proof.
  intros (_ & Hopaque & Hclear) Hframe Hx Hy.
  rewrite stored_pixel by nia. rewrite drawn_pixel by assumption.
  destruct (Nat.ltb_spec x (displayWidth frame));
    destruct (Nat.ltb_spec y (displayHeight frame)); cbn [andb];
    try (apply Hclear; reflexivity).
  apply Hopaque, Hframe; assumption.
Qed.

Lemma combine_spec (P : Platform) (cf af : VideoFrame) :
  premultipliedCanvas P ->
  getContext2d P ColorCanvas = true -> getContext2d P AlphaCanvas = true ->
  0 < displayWidth cf -> 0 < displayHeight cf ->
  opaqueFrame cf -> opaqueFrame af ->
  exists out : VideoFrame,
    combineRGBAFrames P cf af = Return out /\
    displayWidth out = displayWidth cf /\
    displayHeight out = displayHeight cf /\
    forall x y, x < displayWidth cf -> y < displayHeight cf ->
      pixelAt out x y = canvasStore P (composite cf af x y).
Proof.
  intros Hcanvas Hc Ha Hw Hh Hcf Haf. unfold combineRGBAFrames. rewrite Hc, Ha.
  cbn [negb].
  set (w := displayWidth cf) in *. set (h := displayHeight cf) in *.
  rewrite !getImageData_drawn by assumption. cbn [mbind Completion_bind].
  set (data := storeData P (w * h) (bitmap (drawImage (newOffscreenCanvas w h) cf))).
  set (alphaData := storeData P (w * h) (bitmap (drawImage (newOffscreenCanvas w h) af))).
  eexists. split; [reflexivity |]. split; [reflexivity |]. split; [reflexivity |].
  intros x y Hx Hy. unfold VideoFrame_ofCanvas, putImageData.
  cbn [pixelAt bitmap canvasWidth canvasHeight].
  change (canvasWidth (drawImage (newOffscreenCanvas w h) cf)) with w.
  change (canvasHeight (drawImage (newOffscreenCanvas w h) cf)) with h.
  destruct (Nat.ltb_spec x w); [| lia]. destruct (Nat.ltb_spec y h); [| lia].
  cbn [andb].
  assert (y * w + x < w * h) as Hk by nia.
  rewrite stored_pixel by assumption. f_equal.
  assert (length data = 4 * (w * h)) as Hlen by apply stored_length.
  destruct (applyAlpha_channels alphaData (w * h) (length data) 0 data Hlen)
    as [Halpha Hrest]; [lia |].
  change (4 * 0) with 0 in Halpha, Hrest.
  pose proof (read_drawn_pixel P w h cf x y Hcanvas Hcf Hx Hy) as Hcolor.
  fold data in Hcolor.
  pose proof (read_drawn_pixel P w h af x y Hcanvas Haf Hx Hy) as Hmask.
  fold alphaData in Hmask.
  assert ((x <? displayWidth cf) = true) as Hxw by (apply Nat.ltb_lt; exact Hx).
  assert ((y <? displayHeight cf) = true) as Hyh by (apply Nat.ltb_lt; exact Hy).
  rewrite Hxw, Hyh in Hcolor. cbn [andb] in Hcolor.
  unfold pixelOfData at 1. unfold composite.
  rewrite Halpha by lia. rewrite !Hrest by (intros; lia).
  rewrite <- Hcolor.
  replace (channel alphaData (4 * (y * w + x)))
    with (red (pixelOfData alphaData (y * w + x))) by reflexivity.
  rewrite Hmask. destruct (_ && _); reflexivity.
Qed.

(** The laws of a premultiplied bitmap hold for [premultiplied8]. *)
Lemma premultiplied8_laws : premultipliedCanvas toyPlatform.
Proof.
  repeat split.
  - intros [r g b a] Ha. cbn [alpha] in Ha. subst a.
    unfold toyPlatform, canvasStore, premultiplied8. cbn [red green blue alpha].
    f_equal; [destruct r | destruct g | destruct b]; reflexivity.
  - intros [r g b a] Ha. cbn [alpha] in Ha. subst a. reflexivity.
Qed.

End Compositor.

(** C2, as stated, fails: the canvas bitmap is premultiplied, so where the
    alpha plane's red is 0 the frame that comes back has lost the colour
    plane's red, green and blue. *)
Lemma zero_alpha_erases_colour :
  exists out : VideoFrame,
    combineRGBAFrames toyPlatform (colorPlane 2 2) (solidFrame 2 2 (rgba 0 0 0 255))
    = Return out /\
    pixelAt out 0 0 = transparentBlack /\
    red (pixelAt out 0 0) <> red (pixelAt (colorPlane 2 2) 0 0).
Proof. eexists. split; [reflexivity |]. split; [reflexivity | discriminate]. Qed.

(** C2, amended: for opaque colour and alpha planes of the same non-zero
    width and height, with both canvas contexts available and a
    premultiplied canvas bitmap, the returned frame has that size and, at
    every pixel: alpha equal to the alpha plane's red; the colour plane's
    red, green and blue unchanged where that alpha is 255; transparent
    black where it is 0; and in general what the bitmap keeps of the pixel
    (colour red, colour green, colour blue, alpha-plane red) that the loop
    writes.  No other channel of the alpha plane is used.  In particular,
    where the colour plane is (10,20,30,255) and the alpha plane's red is
    128, a bitmap that premultiplies in 8 bits with rounding to nearest
    gives (10,20,30,128). *)
Theorem combine_takes_alpha_from_red (P : Platform) (cf af : VideoFrame) :
  premultipliedCanvas P ->
  getContext2d P ColorCanvas = true -> getContext2d P AlphaCanvas = true ->
  (0 < displayWidth cf)%nat -> (0 < displayHeight cf)%nat ->
  displayWidth af = displayWidth cf -> displayHeight af = displayHeight cf ->
  opaqueFrame cf -> opaqueFrame af ->
  exists out : VideoFrame,
    combineRGBAFrames P cf af = Return out /\
    displayWidth out = displayWidth cf /\
    displayHeight out = displayHeight cf /\
    forall x y : nat, (x < displayWidth cf)%nat -> (y < displayHeight cf)%nat ->
      let written :=
        {| red := red (pixelAt cf x y);
           green := green (pixelAt cf x y);
           blue := blue (pixelAt cf x y);
           alpha := red (pixelAt af x y) |} in
      pixelAt out x y = canvasStore P written /\
      alpha (pixelAt out x y) = red (pixelAt af x y) /\
      (red (pixelAt af x y) = xff -> pixelAt out x y = written) /\
      (red (pixelAt af x y) = x00 -> pixelAt out x y = transparentBlack) /\
      ((forall p : Pixel, canvasStore P p = premultiplied8 p) ->
       pixelAt cf x y = rgba 10 20 30 255 -> red (pixelAt af x y) = u8 128 ->
       pixelAt out x y = rgba 10 20 30 128).
Proof.
  intros Hcanvas Hc Ha Hw0 Hh0 Hw Hh Hcf Haf.
  destruct (combine_spec P cf af Hcanvas Hc Ha Hw0 Hh0 Hcf Haf)
    as (out & Hout & Hwo & Hho & Hpix).
  destruct Hcanvas as (Halpha & Hopaque & Hclear).
  exists out. split; [assumption |]. split; [assumption |]. split; [assumption |].
  intros x y Hx Hy written. rewrite Hpix by assumption.
  assert (composite cf af x y = written) as Hwritten.
  { unfold composite. rewrite Hw, Hh.
    destruct (Nat.ltb_spec x (displayWidth cf)); [| lia].
    destruct (Nat.ltb_spec y (displayHeight cf)); [| lia]. reflexivity. }
  rewrite Hwritten.
  split; [reflexivity |]. split; [apply Halpha |].
  split; [intros Hfull; apply Hopaque; exact Hfull |].
  split; [intros Hnone; apply Hclear; exact Hnone |].
  intros Hstore Hcolour Hred. rewrite Hstore. subst written.
  rewrite Hcolour, Hred. reflexivity.
Qed.

Lemma combine_takes_alpha_from_red_witness :
  exists out : VideoFrame,
    combineRGBAFrames toyPlatform (colorPlane 4 4) (alphaPlane 4 4) = Return out /\
    displayWidth out = 4%nat /\ displayHeight out = 4%nat /\
    forall x y : nat, (x < 4)%nat -> (y < 4)%nat ->
      pixelAt out x y = rgba 10 20 30 128.
Proof.
  destruct (combine_takes_alpha_from_red toyPlatform (colorPlane 4 4) (alphaPlane 4 4)
              premultiplied8_laws eq_refl eq_refl ltac:(cbn; lia) ltac:(cbn; lia)
              eq_refl eq_refl (fun _ _ _ _ => eq_refl) (fun _ _ _ _ => eq_refl))
    as (out & Hout & Hw & Hh & Hpix).
  exists out. split; [exact Hout |]. split; [exact Hw |]. split; [exact Hh |].
  intros x y Hx Hy.
  destruct (Hpix x y Hx Hy) as (_ & _ & _ & _ & Hexample).
  apply Hexample; reflexivity.
Defined.

(** C6, as stated, fails: a 4x4 colour plane combined with a 2x2 alpha
    plane gives a 4x4 frame, not an error. *)
Lemma mismatched_planes_are_combined :
  exists out : VideoFrame,
    combineRGBAFrames toyPlatform (colorPlane 4 4) (alphaPlane 2 2) = Return out /\
    displayWidth out = 4%nat /\ displayHeight out = 4%nat /\
    alpha (pixelAt out 1 1) = u8 128 /\
    pixelAt out 3 3 = transparentBlack.
Proof. eexists. split; [reflexivity |]. repeat split. Qed.

(** C6, amended: the compositor has no dimension check.  For opaque planes
    of any sizes (the colour plane not empty), with both canvas contexts
    available and a premultiplied canvas bitmap, it returns a frame of the
    colour plane's size.  Where the alpha plane covers a pixel, the pixel
    is what the bitmap keeps of (colour red, green, blue, alpha-plane
    red): its alpha is the alpha plane's red, and the colour is unchanged
    when that is 255.  Where the alpha plane does not reach, the pixel is
    transparent black.  The part of the alpha plane that lies outside the
    colour plane is dropped; nothing is stretched. *)
Theorem combine_crops_alpha_plane (P : Platform) (cf af : VideoFrame) :
  premultipliedCanvas P ->
  getContext2d P ColorCanvas = true -> getContext2d P AlphaCanvas = true ->
  (0 < displayWidth cf)%nat -> (0 < displayHeight cf)%nat ->
  opaqueFrame cf -> opaqueFrame af ->
  exists out : VideoFrame,
    combineRGBAFrames P cf af = Return out /\
    displayWidth out = displayWidth cf /\
    displayHeight out = displayHeight cf /\
    forall x y : nat, (x < displayWidth cf)%nat -> (y < displayHeight cf)%nat ->
      ((x < displayWidth af)%nat /\ (y < displayHeight af)%nat ->
       let written :=
         {| red := red (pixelAt cf x y);
            green := green (pixelAt cf x y);
            blue := blue (pixelAt cf x y);
            alpha := red (pixelAt af x y) |} in
       pixelAt out x y = canvasStore P written /\
       alpha (pixelAt out x y) = red (pixelAt af x y) /\
       (red (pixelAt af x y) = xff -> pixelAt out x y = written)) /\
      ((displayWidth af <= x)%nat \/ (displayHeight af <= y)%nat ->
       pixelAt out x y = transparentBlack).
Proof.
  intros Hcanvas Hc Ha Hw0 Hh0 Hcf Haf.
  destruct (combine_spec P cf af Hcanvas Hc Ha Hw0 Hh0 Hcf Haf)
    as (out & Hout & Hwo & Hho & Hpix).
  destruct Hcanvas as (Halpha & Hopaque & Hclear).
  exists out. split; [assumption |]. split; [assumption |]. split; [assumption |].
  intros x y Hx Hy. rewrite Hpix by assumption. unfold composite. split.
  - intros [Hxa Hya].
    destruct (Nat.ltb_spec x (displayWidth af)); [| lia].
    destruct (Nat.ltb_spec y (displayHeight af)); [| lia]. cbn [andb].
    split; [reflexivity |]. split; [apply Halpha |]. intros Hfull.
    apply Hopaque. assumption.
  - intros Houtside.
    destruct (Nat.ltb_spec x (displayWidth af));
      destruct (Nat.ltb_spec y (displayHeight af)); cbn [andb];
      try lia; apply Hclear; reflexivity.
Qed.

Lemma combine_crops_alpha_plane_witness :
  exists out : VideoFrame,
    combineRGBAFrames toyPlatform (colorPlane 4 4) (alphaPlane 2 2) = Return out /\
    displayWidth out = 4%nat /\ displayHeight out = 4%nat /\
    forall x y : nat, (x < 4)%nat -> (y < 4)%nat ->
      ((x < 2)%nat /\ (y < 2)%nat -> pixelAt out x y = rgba 10 20 30 128) /\
      ((2 <= x)%nat \/ (2 <= y)%nat -> pixelAt out x y = transparentBlack).
Proof.
  destruct (combine_crops_alpha_plane toyPlatform (colorPlane 4 4) (alphaPlane 2 2)
              premultiplied8_laws eq_refl eq_refl ltac:(cbn; lia) ltac:(cbn; lia)
              (fun _ _ _ _ => eq_refl) (fun _ _ _ _ => eq_refl))
    as (out & Hout & Hw & Hh & Hpix).
  exists out. split; [exact Hout |]. split; [exact Hw |]. split; [exact Hh |].
  intros x y Hx Hy. destruct (Hpix x y Hx Hy) as [Hin Hout_of_alpha].
  split; [| exact Hout_of_alpha].
  intros Hcovered. exact (proj1 (Hin Hcovered)).
Defined.

(** C10: the frame [combineRGBAFrames] returns has the colour frame's
    display width and height, whatever the alpha frame's dimensions; and
    it does return one whenever both canvas contexts are available and the
    colour frame is not empty. *)
Theorem combine_output_dimensions (P : Platform) (cf af : VideoFrame) :
  (forall out : VideoFrame,
     combineRGBAFrames P cf af = Return out ->
     displayWidth out = displayWidth cf /\ displayHeight out = displayHeight cf) /\
  (getContext2d P ColorCanvas = true -> getContext2d P AlphaCanvas = true ->
   (0 < displayWidth cf)%nat -> (0 < displayHeight cf)%nat ->
   exists out : VideoFrame, combineRGBAFrames P cf af = Return out).
Proof.
  split.
  - unfold combineRGBAFrames. cbv zeta. intros out.
    destruct (getContext2d P ColorCanvas); cbn [negb]; [| discriminate].
    destruct (getImageData P (drawImage _ cf)) as [data | e];
      cbn [mbind Completion_bind]; [| discriminate].
    destruct (getContext2d P AlphaCanvas); cbn [negb]; [| discriminate].
    destruct (getImageData P (drawImage _ af)) as [alphaData | e];
      cbn [mbind Completion_bind]; [| discriminate].
    intros [= <-]. split; reflexivity.
  - intros Hc Ha Hw Hh. unfold combineRGBAFrames. rewrite Hc, Ha. cbn [negb].
    rewrite !getImageData_drawn by assumption. cbn [mbind Completion_bind].
    eauto.
Qed.

Lemma combine_output_dimensions_witness :
  exists out : VideoFrame,
    combineRGBAFrames toyPlatform (colorPlane 4 3) (alphaPlane 2 5) = Return out /\
    displayWidth out = 4%nat /\ displayHeight out = 3%nat.
Proof.
  destruct (proj2 (combine_output_dimensions toyPlatform (colorPlane 4 3) (alphaPlane 2 5))
              eq_refl eq_refl ltac:(cbn; lia) ltac:(cbn; lia)) as [out Hout].
  exists out. split; [exact Hout |].
  exact (proj1 (combine_output_dimensions toyPlatform (colorPlane 4 3) (alphaPlane 2 5))
           out Hout).
Defined.

(** * The decode pipeline *)

Lemma decodeAV1Frame_empty (P : Platform) : decodeAV1Frame P [] = Return None.
Proof. reflexivity. Qed.

(** C8: when the container parses and its colour payload yields no frame,
    [decodeMilimg] fails with "Failed to decode color frame" and produces
    nothing; a zero-length colour payload is such a payload, whatever the
    decoder is. *)
Theorem decode_fails_without_color_frame (P : Platform) (buf : Buffer) (h : MilimgHeader) :
  parseMilimgContainer buf = Return h ->
  (decodeAV1Frame P (colorPayload h) = Return None ->
   decodeMilimg P buf = Throw (Error "Failed to decode color frame")) /\
  (colorPayload h = [] ->
   decodeAV1Frame P (colorPayload h) = Return None /\
   decodeMilimg P buf = Throw (Error "Failed to decode color frame")).
Proof.
  intros Hparse.
  assert (decodeAV1Frame P (colorPayload h) = Return None ->
          decodeMilimg P buf = Throw (Error "Failed to decode color frame")) as Hfail.
  { intros Hnone. unfold decodeMilimg. rewrite Hparse. cbn [mbind Completion_bind].
    rewrite Hnone. reflexivity. }
  split; [exact Hfail |].
  intros Hempty. split; [| apply Hfail]; rewrite Hempty; apply decodeAV1Frame_empty.
Qed.

Lemma decode_fails_without_color_frame_witness :
  decodeAV1Frame toyPlatform [] = Return None /\
  decodeMilimg toyPlatform emptyColorV0 = Throw (Error "Failed to decode color frame").
Proof.
  apply (decode_fails_without_color_frame toyPlatform emptyColorV0
           {| version := 0; width := 3; height := 2; colorPayload := [];
              alphaPayload := None |});
    reflexivity.
Defined.

(** A decoder error on the alpha payload is not "no frame": it rejects
    the whole call. *)
Lemma decode_alpha_error_propagates
    (P : Platform) (buf : Buffer) (h : MilimgHeader) (colorFrame : VideoFrame)
    (payload : Buffer) (e : JsError) :
  parseMilimgContainer buf = Return h ->
  version h = 1 ->
  decodeAV1Frame P (colorPayload h) = Return (Some colorFrame) ->
  alphaPayload h = Some payload ->
  decodeAV1Frame P payload = Throw e ->
  decodeMilimg P buf = Throw e.
Proof.
  intros Hparse Hv Hcolor Hpayload Halpha.
  unfold decodeMilimg. rewrite Hparse. cbn [mbind Completion_bind].
  rewrite Hcolor, Hv, Hpayload. cbn [mbind Completion_bind Z.eqb Pos.eqb].
  rewrite Halpha. reflexivity.
Qed.

(** C7: for a version-1 container whose colour payload decodes to a frame
    and whose alpha payload yields none, [decodeMilimg] skips the
    compositor and is the PNG encoding of the colour frame alone: the
    missing alpha frame is not a failure, and the call returns what
    [frameToPNG] returns for the colour frame. *)
Theorem decode_falls_back_to_color_frame
    (P : Platform) (buf : Buffer) (h : MilimgHeader) (colorFrame : VideoFrame)
    (payload : Buffer) :
  parseMilimgContainer buf = Return h ->
  version h = 1 ->
  decodeAV1Frame P (colorPayload h) = Return (Some colorFrame) ->
  alphaPayload h = Some payload ->
  decodeAV1Frame P payload = Return None ->
  decodeMilimg P buf = frameToPNG P colorFrame /\
  (forall png : Buffer,
     frameToPNG P colorFrame = Return png -> decodeMilimg P buf = Return png).
Proof.
  intros Hparse Hv Hcolor Hpayload Halpha.
  assert (decodeMilimg P buf = frameToPNG P colorFrame) as Heq.
  { unfold decodeMilimg. rewrite Hparse. cbn [mbind Completion_bind].
    rewrite Hcolor, Hv, Hpayload. cbn [mbind Completion_bind Z.eqb Pos.eqb].
    rewrite Halpha. reflexivity. }
  split; [exact Heq |]. intros png Hpng. rewrite Heq. exact Hpng.
Qed.

Lemma decode_falls_back_to_color_frame_witness :
  decodeMilimg toyPlatform emptyAlphaV1 =
  Return (concat (replicate 4 [x30; x30; x30; xff])).
Proof.
  apply (decode_falls_back_to_color_frame toyPlatform emptyAlphaV1
           {| version := 1; width := 3; height := 2; colorPayload := [x30; x39];
              alphaPayload := Some [] |}
           (solidFrame 2 2 {| red := x30; green := x30; blue := x30; alpha := xff |})
           []);
    reflexivity.
Defined.

(** * Further properties of the parser *)

(** X1: the parser fails in three ways only, each with its cause: the
    magic error when the magic check fails; "Unsupported version: v" when
    the magic is right, the version field is there and is neither 0 nor 1;
    a [RangeError] when the magic is right and a read runs past the end of
    the buffer. *)
Theorem parse_failure_kinds (buf : Buffer) (e : JsError) :
  parseMilimgContainer buf = Throw e ->
  (e = invalidMagic /\ magic_ok buf = false) \/
  (e = unsupportedVersion (field buf 8 4) /\ magic_ok buf = true /\
   12 <= Z.of_nat (length buf) /\ field buf 8 4 <> 0 /\ field buf 8 4 <> 1) \/
  (e = RangeError /\ magic_ok buf = true /\
   (Z.of_nat (length buf) < 28 \/ field buf 8 4 = 1)).
Proof.
  rewrite parse_eq. cbv zeta.
  destruct (magic_ok buf); cbn [negb]; [| intros [= <-]; auto].
  destruct (Z.ltb_spec (Z.of_nat (length buf)) 12);
    [intros [= <-]; right; right; repeat split; auto; lia |].
  destruct (Z.eqb_spec (field buf 8 4) 0) as [H0 | H0];
    destruct (Z.eqb_spec (field buf 8 4) 1) as [H1 | H1]; cbn [negb andb];
    try (intros [= <-]; right; left; repeat split; auto; lia).
  all: destruct (Z.ltb_spec (Z.of_nat (length buf)) 28);
    [intros [= <-]; right; right; repeat split; auto; lia |].
  all: try discriminate.
  all: destruct (_ <? _); [intros [= <-]; right; right; auto | discriminate].
Qed.

Lemma parse_failure_kinds_witness :
  (RangeError = invalidMagic /\ magic_ok truncatedV1 = false) \/
  (RangeError = unsupportedVersion (field truncatedV1 8 4) /\
   magic_ok truncatedV1 = true /\
   12 <= Z.of_nat (length truncatedV1) /\
   field truncatedV1 8 4 <> 0 /\ field truncatedV1 8 4 <> 1) \/
  (RangeError = RangeError /\ magic_ok truncatedV1 = true /\
   (Z.of_nat (length truncatedV1) < 28 \/ field truncatedV1 8 4 = 1)).
Proof. apply (parse_failure_kinds truncatedV1 RangeError). reflexivity. Defined.

(** X2: no buffer shorter than the 28-byte header is accepted, and the
    checks run in the order of the layout: under 8 bytes the magic error;
    with the magic right, under 12 bytes a [RangeError]; with 12 to 27
    bytes, "Unsupported version" when the version is neither 0 nor 1 and a
    [RangeError] when it is. *)
Theorem parse_incomplete_header (buf : Buffer) :
  Z.of_nat (length buf) < 28 ->
  (Z.of_nat (length buf) < 8 -> parseMilimgContainer buf = Throw invalidMagic) /\
  (magic_ok buf = true -> Z.of_nat (length buf) < 12 ->
   parseMilimgContainer buf = Throw RangeError) /\
  (magic_ok buf = true -> 12 <= Z.of_nat (length buf) ->
   parseMilimgContainer buf =
   if (field buf 8 4 =? 0) || (field buf 8 4 =? 1)
   then Throw RangeError
   else Throw (unsupportedVersion (field buf 8 4))) /\
  (forall h : MilimgHeader, parseMilimgContainer buf <> Return h).
Proof.
  intros Hshort. rewrite parse_eq. cbv zeta. repeat split.
  - intros H8. destruct (magic_ok buf) eqn:Hmagic; [| reflexivity].
    apply magic_ok_length in Hmagic. lia.
  - intros -> H12. cbn [negb].
    destruct (Z.ltb_spec (Z.of_nat (length buf)) 12); [reflexivity | lia].
  - intros -> H12. cbn [negb].
    destruct (Z.ltb_spec (Z.of_nat (length buf)) 12); [lia |].
    destruct (field buf 8 4 =? 0); destruct (field buf 8 4 =? 1); cbn [negb andb orb];
      try reflexivity.
    all: destruct (Z.ltb_spec (Z.of_nat (length buf)) 28); [reflexivity | lia].
  - intros h. destruct (magic_ok buf); cbn [negb]; [| discriminate].
    destruct (_ <? 12); [discriminate |].
    destruct (_ && _); [discriminate |].
    destruct (Z.ltb_spec (Z.of_nat (length buf)) 28); [discriminate | lia].
Qed.

Lemma parse_incomplete_header_witness :
  parseMilimgContainer (ascii_bytes MAGIC ++ be_bytes 4 1 ++ be_bytes 4 3) =
  Throw RangeError.
Proof.
  apply (parse_incomplete_header (ascii_bytes MAGIC ++ be_bytes 4 1 ++ be_bytes 4 3));
    vm_compute; congruence.
Defined.

(** * Reading back what was laid out *)

Lemma byteZ_byte_of_Z (z : Z) : byteZ (byte_of_Z z) = z mod 256.
Proof.
  unfold byte_of_Z, byteZ.
  pose proof (Z.mod_pos_bound z 256 ltac:(lia)) as Hr.
  destruct (Byte.of_N (Z.to_N (z mod 256))) as [b |] eqn:E.
  - apply Byte.to_of_N in E. cbn [default from_option id]. rewrite E. lia.
  - apply Byte.of_N_None_iff in E. lia.
Qed.

Lemma be_uint_cons (b : byte) (bs : list byte) :
  be_uint (b :: bs) = byteZ b * 256 ^ Z.of_nat (length bs) + be_uint bs.
Proof.
  induction bs as [| x bs IH] using rev_ind.
  - unfold be_uint. cbn [fold_left length]. lia.
  - change (b :: bs ++ [x]) with ((b :: bs) ++ [x]).
    rewrite !be_uint_snoc, IH, length_app. cbn [length].
    replace (Z.of_nat (length bs + 1)) with (Z.of_nat (length bs) + 1) by lia.
    rewrite Z.pow_add_r by lia. lia.
Qed.

Lemma length_be_bytes (n : nat) (z : Z) : length (be_bytes n z) = n.
Proof. induction n as [| n IH]; cbn [be_bytes length]; congruence. Qed.

Lemma be_uint_be_bytes (n : nat) (z : Z) :
  be_uint (be_bytes n z) = z mod 256 ^ Z.of_nat n.
Proof.
  induction n as [| n IH].
  - cbn. rewrite Z.mod_1_r. reflexivity.
  - cbn [be_bytes]. rewrite be_uint_cons, IH, length_be_bytes, byteZ_byte_of_Z.
    rewrite Z.shiftr_div_pow2 by lia.
    rewrite Z.pow_mul_r by lia. change (2 ^ 8) with 256.
    replace (Z.of_nat (S n)) with (Z.of_nat n + 1) by lia.
    rewrite Z.pow_add_r by lia. change (256 ^ 1) with 256.
    assert (0 < 256 ^ Z.of_nat n) by (apply Z.pow_pos_nonneg; lia).
    rewrite (Z.rem_mul_r z (256 ^ Z.of_nat n) 256) by lia. lia.
Qed.

Lemma field_skip (pre l : Buffer) (off : Z) (n : nat) :
  Z.of_nat (length pre) <= off ->
  field (pre ++ l) off n = field l (off - Z.of_nat (length pre)) n.
Proof.
  intros H. unfold field. rewrite drop_app_ge by lia.
  do 3 f_equal. lia.
Qed.

Lemma field_head (n : nat) (z : Z) (rest : Buffer) :
  0 <= z < 256 ^ Z.of_nat n -> field (be_bytes n z ++ rest) 0 n = z.
Proof.
  intros Hz. unfold field. change (Z.to_nat 0) with 0%nat. rewrite drop_0.
  rewrite take_app_length' by (symmetry; apply length_be_bytes).
  rewrite be_uint_be_bytes. apply Z.mod_small. exact Hz.
Qed.

Lemma field_at (pre rest : Buffer) (n : nat) (z off : Z) :
  off = Z.of_nat (length pre) -> 0 <= z < 256 ^ Z.of_nat n ->
  field (pre ++ be_bytes n z ++ rest) off n = z.
Proof.
  intros -> Hz. rewrite field_skip by lia. rewrite Z.sub_diag.
  apply field_head. exact Hz.
Qed.

Lemma length_container_prefix (v w h c : Z) :
  length (container_prefix MAGIC v w h c) = 28%nat.
Proof.
  unfold container_prefix. rewrite !length_app, !length_be_bytes. reflexivity.
Qed.

Lemma container_fields (v w h c : Z) (rest : Buffer) :
  0 <= v < 2 ^ 32 -> 0 <= w < 2 ^ 32 -> 0 <= h < 2 ^ 32 -> 0 <= c < 2 ^ 64 ->
  let buf := container_prefix MAGIC v w h c ++ rest in
  magic_ok buf = true /\
  field buf 8 4 = v /\ field buf 12 4 = w /\ field buf 16 4 = h /\
  field buf 20 8 = c /\ drop 28 buf = rest.
Proof.
  intros Hv Hw Hh Hc buf. subst buf. unfold container_prefix.
  split; [reflexivity |].
  set (M := ascii_bytes MAGIC).
  split; [| split; [| split; [| split]]].
  - rewrite <- !app_assoc. apply (field_at M); [reflexivity | exact Hv].
  - replace ((M ++ be_bytes 4 v ++ be_bytes 4 w ++ be_bytes 4 h ++ be_bytes 8 c) ++ rest)
      with ((M ++ be_bytes 4 v) ++ be_bytes 4 w ++ (be_bytes 4 h ++ be_bytes 8 c ++ rest))
      by (rewrite <- !app_assoc; reflexivity).
    apply field_at; [| exact Hw]. rewrite length_app, length_be_bytes. reflexivity.
  - replace ((M ++ be_bytes 4 v ++ be_bytes 4 w ++ be_bytes 4 h ++ be_bytes 8 c) ++ rest)
      with ((M ++ be_bytes 4 v ++ be_bytes 4 w) ++ be_bytes 4 h ++ (be_bytes 8 c ++ rest))
      by (rewrite <- !app_assoc; reflexivity).
    apply field_at; [| exact Hh]. rewrite !length_app, !length_be_bytes. reflexivity.
  - replace ((M ++ be_bytes 4 v ++ be_bytes 4 w ++ be_bytes 4 h ++ be_bytes 8 c) ++ rest)
      with ((M ++ be_bytes 4 v ++ be_bytes 4 w ++ be_bytes 4 h) ++ be_bytes 8 c ++ rest)
      by (rewrite <- !app_assoc; reflexivity).
    apply field_at; [| exact Hc]. rewrite !length_app, !length_be_bytes. reflexivity.
  - apply drop_app_length'. rewrite !length_app, !length_be_bytes. reflexivity.
Qed.

Lemma parse_container_header (w h : Z) (color : Buffer) (alpha : option Buffer) :
  0 <= w < 2 ^ 32 -> 0 <= h < 2 ^ 32 ->
  Z.of_nat (length (container w h color alpha)) < 2 ^ 32 ->
  parseMilimgContainer (container w h color alpha) =
  Return {| version := match alpha with Some _ => 1 | None => 0 end;
            width := w; height := h;
            colorPayload := color; alphaPayload := alpha |}.
Proof.
  intros Hw Hh Hlen. unfold container in *.
  set (v := match alpha with Some _ => 1 | None => 0 end) in *.
  set (c := Z.of_nat (length color)) in *.
  set (tail := match alpha with
               | Some a => be_bytes 8 (Z.of_nat (length a)) ++ a
               | None => []
               end) in *.
  assert (0 <= v < 2 ^ 32) as Hv by (subst v; destruct alpha; lia).
  rewrite length_app, length_container_prefix, length_app in Hlen. fold c in Hlen.
  assert (0 <= c < 2 ^ 64) as Hc by (subst c; lia).
  destruct (container_fields v w h c (color ++ tail) Hv Hw Hh Hc)
    as (Hmagic & F8 & F12 & F16 & F20 & Hdrop).
  set (buf := container_prefix MAGIC v w h c ++ color ++ tail) in *.
  assert (Z.of_nat (length buf) = 28 + c + Z.of_nat (length tail)) as Hbuf
    by (subst buf; rewrite length_app, length_container_prefix, length_app; lia).
  assert (take (Z.to_nat c) (drop 28 buf) = color) as Hcolor
    by (rewrite Hdrop; apply take_app_length'; subst c; lia).
  destruct alpha as [a |].
  - assert (drop (Z.to_nat (28 + c)) buf = tail) as Htail.
    { subst buf. rewrite app_assoc. apply drop_app_length'.
      rewrite length_app, length_container_prefix. subst c. lia. }
    subst tail. rewrite length_app, length_be_bytes in Hbuf, Hlen.
    assert (field buf (28 + c) 8 = Z.of_nat (length a)) as Fa.
    { unfold field. rewrite Htail.
      apply (field_head 8 (Z.of_nat (length a)) a).
      change (256 ^ Z.of_nat 8) with (2 ^ 64). lia. }
    rewrite parse_v1; rewrite ?F8, ?F12, ?F16, ?F20, ?Fa; try lia; try assumption;
      try reflexivity.
    destruct (Z.ltb_spec (Z.of_nat (length buf)) (36 + c)); [lia |].
    rewrite Hcolor. do 3 f_equal.
    replace (Z.to_nat (36 + c)) with (Z.to_nat (28 + c) + 8)%nat by lia.
    rewrite <- drop_drop, Htail.
    rewrite drop_app_length' by (rewrite length_be_bytes; reflexivity).
    apply take_ge. lia.
  - rewrite parse_v0; rewrite ?F8, ?F12, ?F16, ?F20; try lia; try assumption;
      try reflexivity.
    rewrite Hcolor. reflexivity.
Qed.

Lemma complete_container (w h : Z) (color : Buffer) (alpha : option Buffer) :
  0 <= w < 2 ^ 32 -> 0 <= h < 2 ^ 32 ->
  Z.of_nat (length (container w h color alpha)) < 2 ^ 32 ->
  complete (container w h color alpha).
Proof.
  intros Hw Hh Hlen. unfold container in *.
  set (v := match alpha with Some _ => 1 | None => 0 end) in *.
  set (c := Z.of_nat (length color)) in *.
  assert (0 <= v < 2 ^ 32) as Hv by (subst v; destruct alpha; lia).
  rewrite length_app, length_container_prefix, length_app in Hlen. fold c in Hlen.
  assert (0 <= c < 2 ^ 64) as Hc by (subst c; lia).
  destruct (container_fields v w h c
              (color ++ match alpha with
                        | Some a => be_bytes 8 (Z.of_nat (length a)) ++ a
                        | None => []
                        end) Hv Hw Hh Hc)
    as (_ & F8 & _ & _ & F20 & _).
  unfold complete. cbv zeta. rewrite F8, F20.
  rewrite !length_app, length_container_prefix. fold c. split; [lia |].
  intros Hv1. destruct alpha as [a |]; [| subst v; discriminate].
  rewrite length_app, length_be_bytes in *.
  rewrite app_assoc.
  rewrite (field_at (container_prefix MAGIC v w h c ++ color) a 8
             (Z.of_nat (length a)) (28 + c)).
  - lia.
  - rewrite length_app, length_container_prefix. subst c. lia.
  - change (256 ^ Z.of_nat 8) with (2 ^ 64). lia.
Qed.

Lemma parse_app_complete (B T : Buffer) (h : MilimgHeader) :
  parseMilimgContainer B = Return h ->
  Z.of_nat (length B) < 2 ^ 32 -> complete B ->
  parseMilimgContainer (B ++ T) = Return h.
Proof.
  intros Hparse H32 [Hcolor Halpha].
  destruct (parse_Return_inv B h Hparse) as (Hmagic & Hlen & Hcase).
  pose proof (magic_ok_app B T Hmagic) as HmagicT.
  assert (Z.of_nat (length B) <= Z.of_nat (length (B ++ T))) as HlenT
    by (rewrite length_app; lia).
  pose proof (field_app B T 8 4) as F8.
  pose proof (field_app B T 12 4) as F12.
  pose proof (field_app B T 16 4) as F16.
  pose proof (field_app B T 20 8) as F20.
  pose proof (field_range B 20 8) as Hc.
  assert (forall n : nat, Z.of_nat n <= Z.of_nat (length B) - 28 ->
            take n (drop 28 (B ++ T)) = take n (drop 28 B)) as Hview.
  { intros n Hn. rewrite drop_app_le by lia.
    apply take_app_le. rewrite length_drop. lia. }
  destruct Hcase as [[Hv _] | (Hv & _ & _)].
  - rewrite parse_v0 in Hparse by (auto; lia). rewrite <- Hparse.
    rewrite parse_v0; rewrite ?F8, ?F12, ?F16, ?F20 by lia; auto; try lia.
    rewrite Hview by lia. reflexivity.
  - specialize (Halpha Hv).
    pose proof (field_range B (28 + field B 20 8) 8) as Ha.
    pose proof (field_app B T (28 + field B 20 8) 8) as Fa.
    rewrite parse_v1 in Hparse by (auto; lia).
    destruct (Z.ltb_spec (Z.of_nat (length B)) (36 + field B 20 8)); [lia |].
    rewrite <- Hparse.
    rewrite parse_v1; rewrite ?F8, ?F12, ?F16, ?F20 by lia;
      rewrite ?Fa by lia; auto; try lia.
    destruct (Z.ltb_spec (Z.of_nat (length (B ++ T))) (36 + field B 20 8)); [lia |].
    rewrite Hview by lia.
    rewrite drop_app_le by lia.
    rewrite (take_app_le (drop (Z.to_nat (36 + field B 20 8)) B))
      by (rewrite length_drop; lia).
    reflexivity.
Qed.

(** X3: the parser reads back what the layout says.  For any width and
    height below 2^32 (0 included: neither is validated) and any payloads,
    the container laid out as magic, version, width, height, colour size,
    colour bytes and, with an alpha payload, alpha size and alpha bytes, if
    shorter than 2^32 bytes, parses to exactly that version, width, height
    and those payloads, whatever bytes follow it. *)
Theorem parse_container (w h : Z) (color : Buffer) (alpha : option Buffer) (T : Buffer) :
  0 <= w < 2 ^ 32 -> 0 <= h < 2 ^ 32 ->
  Z.of_nat (length (container w h color alpha)) < 2 ^ 32 ->
  parseMilimgContainer (container w h color alpha ++ T) =
  Return {| version := match alpha with Some _ => 1 | None => 0 end;
            width := w; height := h;
            colorPayload := color; alphaPayload := alpha |}.
Proof.
  intros Hw Hh Hlen.
  apply parse_app_complete.
  - apply parse_container_header; assumption.
  - exact Hlen.
  - apply complete_container; assumption.
Qed.

Lemma parse_container_witness :
  parseMilimgContainer (container 640 0 [x0a; x0b] (Some [x01]) ++ [xff; xfe]) =
  Return {| version := 1; width := 640; height := 0;
            colorPayload := [x0a; x0b]; alphaPayload := Some [x01] |}.
Proof.
  apply (parse_container 640 0 [x0a; x0b] (Some [x01]) [xff; xfe]);
    vm_compute; split; congruence.
Defined.

(** * Where the payloads lie *)

Lemma take_drop_length {A : Type} (n : nat) (l : list A) :
  take n l ++ drop (length (take n l)) l = l.
Proof.
  rewrite length_take. destruct (Nat.le_ge_cases n (length l)).
  - rewrite Nat.min_l by assumption. apply take_drop.
  - rewrite Nat.min_r by assumption. rewrite take_ge, drop_ge by lia.
    apply app_nil_r.
Qed.

(** X4: the payloads of an accepted buffer are consecutive, disjoint
    slices of it, colour first.  Without an alpha payload the buffer is its
    28-byte header, the colour payload and what is left.  With one (and a
    declared colour size below 2^32 - 28) the colour payload is whole and
    the buffer is header, colour payload, the 8 bytes of the alpha size,
    the alpha payload and what is left. *)
Theorem parse_views_partition (buf : Buffer) (h : MilimgHeader) :
  addressable buf ->
  parseMilimgContainer buf = Return h ->
  let color := colorPayload h in
  match alphaPayload h with
  | None => buf = take 28 buf ++ color ++ drop (28 + length color) buf
  | Some alpha =>
      field buf 20 8 < 2 ^ 32 - 28 ->
      Z.of_nat (length color) = field buf 20 8 /\
      buf = take 28 buf ++ color ++ take 8 (drop (28 + length color) buf)
            ++ alpha ++ drop (36 + length color + length alpha) buf
  end.
Proof.
  intros Haddr Hparse.
  pose proof (field_range buf 20 8) as Hc.
  destruct (parse_Return_inv buf h Hparse) as (Hmagic & Hlen & [[Hv _] | (Hv & _ & _)]).
  - rewrite parse_v0 in Hparse by auto. injection Hparse as Hh. subst h.
    cbn [colorPayload alphaPayload].
    rewrite <- drop_drop, take_drop_length, take_drop. reflexivity.
  - destruct (Z.lt_ge_cases (field buf 20 8) (2 ^ 32 - 28)) as [Hsmall | Hbig].
    + rewrite parse_v1 in Hparse by auto.
      destruct (Z.ltb_spec (Z.of_nat (length buf)) (36 + field buf 20 8));
        [discriminate |].
      injection Hparse as Hh. subst h. cbn [colorPayload alphaPayload].
      intros _.
      set (c := field buf 20 8) in *.
      assert (length (take (Z.to_nat c) (drop 28 buf)) = Z.to_nat c) as Hcolor
        by (rewrite length_take, length_drop; lia).
      rewrite Hcolor. split; [lia |].
      set (a := field buf (28 + c) 8).
      replace (Z.to_nat (36 + c)) with (28 + Z.to_nat c + 8)%nat by lia.
      replace (36 + Z.to_nat c + length (take (Z.to_nat a) (drop (28 + Z.to_nat c + 8) buf)))%nat
        with (28 + Z.to_nat c + 8
              + length (take (Z.to_nat a) (drop (28 + Z.to_nat c + 8) buf)))%nat by lia.
      rewrite <- (drop_drop buf _ (28 + Z.to_nat c + 8)).
      rewrite take_drop_length.
      rewrite <- (drop_drop buf 8 (28 + Z.to_nat c)), take_drop.
      rewrite <- (drop_drop buf (Z.to_nat c) 28), take_drop.
      rewrite take_drop. reflexivity.
    + destruct (alphaPayload h); [intros; lia |].
      destruct (parse_Return_inv buf h Hparse) as (_ & _ & [[? _] | (_ & _ & ->)]);
        [lia |].
      unfold headerOf in *. cbn [colorPayload alphaPayload] in *.
      rewrite (view_exact buf 28 (field buf 20 8)) by (auto; lia).
      rewrite <- drop_drop, take_drop_length, take_drop. reflexivity.
Qed.

Lemma parse_views_partition_witness :
  Z.of_nat (length [x30; x39]) = field completeV1 20 8 /\
  completeV1 =
  take 28 completeV1 ++ [x30; x39] ++ take 8 (drop (28 + 2) completeV1)
  ++ [x01; x02; x03] ++ drop (36 + 2 + 3) completeV1.
Proof.
  assert (addressable completeV1) as Haddr by (vm_compute; discriminate).
  apply (parse_views_partition completeV1
           {| version := 1; width := 3; height := 2; colorPayload := [x30; x39];
              alphaPayload := Some [x01; x02; x03] |} Haddr eq_refl).
  vm_compute. reflexivity.
Defined.

Lemma subarray_beyond (buf : Buffer) (s e : Z) :
  Z.of_nat (length buf) <= s -> 0 <= e -> Buf.subarray buf s e = [].
Proof.
  intros Hs He. unfold Buf.subarray, Buf.relativeIndex.
  destruct (Z.ltb_spec s 0); [lia |]. destruct (Z.ltb_spec e 0); [lia |].
  rewrite (Z.min_r s) by lia.
  rewrite Z.max_r by lia. reflexivity.
Qed.

(** X5: a version-1 container whose declared colour size reaches
    2^32 - 28, in a buffer shorter than 2^32 bytes, never yields alpha
    bytes: the parser either fails with a [RangeError] or returns all the
    bytes after the header as the colour payload and an empty alpha
    payload. *)
Theorem parse_oversized_color (buf : Buffer) :
  Z.of_nat (length buf) < 2 ^ 32 ->
  magic_ok buf = true -> 28 <= Z.of_nat (length buf) ->
  field buf 8 4 = 1 -> 2 ^ 32 - 28 <= field buf 20 8 ->
  parseMilimgContainer buf = Throw RangeError \/
  parseMilimgContainer buf =
  Return {| version := 1; width := field buf 12 4; height := field buf 16 4;
            colorPayload := drop 28 buf; alphaPayload := Some [] |}.
Proof.
  intros Hlen Hmagic H28 Hv Hc.
  rewrite parse_eq, Hmagic, Hv. cbv zeta. cbn [negb Z.eqb andb].
  destruct (Z.ltb_spec (Z.of_nat (length buf)) 12); [lia |].
  destruct (Z.ltb_spec (Z.of_nat (length buf)) 28); [lia |].
  set (c := field buf 20 8) in *.
  pose proof (round_ge_min c) as Hrc.
  pose proof (round_ge_min (28 + Number.round c)) as Hce.
  set (colorEnd := Number.add 28 (Number.round c)).
  assert (2 ^ 32 <= colorEnd) as Hend by (unfold colorEnd, Number.add; lia).
  pose proof (round_ge_min (colorEnd + 8)) as Hstart.
  destruct (_ <? _); [left; reflexivity | right].
  unfold headerOf. rewrite Hv. fold c. fold colorEnd.
  rewrite (subarray_take_drop buf 28 colorEnd) by lia.
  rewrite take_ge by (rewrite length_drop; lia).
  rewrite subarray_beyond; [reflexivity | unfold Number.add; lia |].
  apply round_nonneg.
  pose proof (round_nonneg (field buf (Number.toUint32 colorEnd) 8)) as Ha.
  pose proof (field_range buf (Number.toUint32 colorEnd) 8).
  unfold Number.add at 1. lia.
Qed.

Lemma parse_oversized_color_witness :
  parseMilimgContainer wrappedV1 = Throw RangeError \/
  parseMilimgContainer wrappedV1 =
  Return {| version := 1; width := 3; height := 2;
            colorPayload := be_bytes 8 5; alphaPayload := Some [] |}.
Proof.
  apply (parse_oversized_color wrappedV1); vm_compute; congruence.
Defined.

(** * Further properties of the rasterizer and the compositor *)

Lemma frameToPNG_drawn (P : Platform) (frame : VideoFrame) :
  getContext2d P PngCanvas = true ->
  frameToPNG P frame =
  convertToBlob P
    (drawImage (newOffscreenCanvas (displayWidth frame) (displayHeight frame)) frame).
Proof. intros Hctx. unfold frameToPNG. rewrite Hctx. reflexivity. Qed.

Lemma drawn_own_pixel (frame : VideoFrame) (x y : nat) :
  (x < displayWidth frame)%nat -> (y < displayHeight frame)%nat ->
  pixelOfData
    (bitmap (drawImage (newOffscreenCanvas (displayWidth frame) (displayHeight frame))
               frame))
    (y * displayWidth frame + x)
  = pixelAt frame x y.
Proof.
  intros Hx Hy. rewrite drawn_pixel by assumption.
  destruct (Nat.ltb_spec x (displayWidth frame)); [| lia].
  destruct (Nat.ltb_spec y (displayHeight frame)); [| lia]. reflexivity.
Qed.

(** X6: [frameToPNG] fails with "Failed to get canvas context" when the
    canvas gives no 2D context, whatever the frame; otherwise its result is
    the PNG encoder's result on a canvas of exactly the frame's display
    size that shows the frame's pixel at every position (nothing cropped,
    nothing padded). *)
Theorem frameToPNG_encodes_whole_frame (P : Platform) (frame : VideoFrame) :
  (getContext2d P PngCanvas = false ->
   frameToPNG P frame = Throw (Error "Failed to get canvas context")) /\
  (getContext2d P PngCanvas = true ->
   exists canvas : OffscreenCanvas,
     frameToPNG P frame = convertToBlob P canvas /\
     canvasWidth canvas = displayWidth frame /\
     canvasHeight canvas = displayHeight frame /\
     length (bitmap canvas) = (4 * (displayWidth frame * displayHeight frame))%nat /\
     forall x y : nat, (x < displayWidth frame)%nat -> (y < displayHeight frame)%nat ->
       pixelOfData (bitmap canvas) (y * displayWidth frame + x) = pixelAt frame x y).
Proof.
  split.
  - intros Hctx. unfold frameToPNG. rewrite Hctx. reflexivity.
  - intros Hctx. eexists. split; [apply frameToPNG_drawn; exact Hctx |].
    split; [reflexivity |]. split; [reflexivity |].
    split; [apply drawn_length |]. apply drawn_own_pixel.
Qed.

Lemma frameToPNG_encodes_whole_frame_witness :
  exists canvas : OffscreenCanvas,
    frameToPNG toyPlatform (colorPlane 3 2) = convertToBlob toyPlatform canvas /\
    canvasWidth canvas = 3%nat /\ canvasHeight canvas = 2%nat /\
    length (bitmap canvas) = 24%nat /\
    forall x y : nat, (x < 3)%nat -> (y < 2)%nat ->
      pixelOfData (bitmap canvas) (y * 3 + x) = rgba 10 20 30 255.
Proof.
  apply (proj2 (frameToPNG_encodes_whole_frame toyPlatform (colorPlane 3 2))).
  reflexivity.
Defined.

(** X7: [combineRGBAFrames] fails in three ways only: without a context
    for the colour canvas ("Failed to get canvas context"), on an empty
    colour frame (the [IndexSizeError] of [getImageData]), or without a
    context for the alpha canvas ("Failed to get alpha canvas context").
    None of them looks at the alpha frame: the same call with any other
    alpha frame fails the same way. *)
Theorem combine_failure_kinds (P : Platform) (cf af : VideoFrame) (e : JsError) :
  combineRGBAFrames P cf af = Throw e ->
  ((e = Error "Failed to get canvas context" /\ getContext2d P ColorCanvas = false) \/
   (e = DOMException "IndexSizeError" /\
    (displayWidth cf = 0%nat \/ displayHeight cf = 0%nat)) \/
   (e = Error "Failed to get alpha canvas context" /\
    getContext2d P AlphaCanvas = false)) /\
  (forall af' : VideoFrame, combineRGBAFrames P cf af' = Throw e).
Proof.
  unfold combineRGBAFrames. cbv zeta. unfold getImageData.
  cbn [canvasWidth canvasHeight drawImage newOffscreenCanvas].
  destruct (getContext2d P ColorCanvas); cbn [negb];
    [| intros [= <-]; split; [auto | reflexivity]].
  destruct (Nat.eqb_spec (displayWidth cf) 0) as [Hw | Hw]; cbn [orb].
  { cbn [mbind Completion_bind]. intros [= <-]. split; [auto | reflexivity]. }
  destruct (Nat.eqb_spec (displayHeight cf) 0) as [Hh | Hh].
  { cbn [mbind Completion_bind]. intros [= <-]. split; [auto | reflexivity]. }
  cbn [mbind Completion_bind].
  destruct (getContext2d P AlphaCanvas); cbn [negb];
    [discriminate | intros [= <-]; split; [auto | reflexivity]].
Qed.

Lemma combine_failure_kinds_witness :
  combineRGBAFrames
    {| videoDecoder := videoDecoder toyPlatform;
       getContext2d := fun role => match role with AlphaCanvas => false | _ => true end;
       convertToBlob := convertToBlob toyPlatform;
       canvasStore := canvasStore toyPlatform |}
    (colorPlane 4 4) (alphaPlane 7 1)
  = Throw (Error "Failed to get alpha canvas context").
Proof.
  apply (proj2 (combine_failure_kinds
                  {| videoDecoder := videoDecoder toyPlatform;
                     getContext2d :=
                       fun role => match role with AlphaCanvas => false | _ => true end;
                     convertToBlob := convertToBlob toyPlatform;
                     canvasStore := canvasStore toyPlatform |}
                  (colorPlane 4 4) (alphaPlane 2 2)
                  (Error "Failed to get alpha canvas context") eq_refl)).
Defined.



(** * Further properties of the pipeline *)

(** X11: for a version-1 container whose two payloads both decode to an
    opaque frame, with all three canvas contexts available and a
    premultiplied canvas bitmap, [decodeMilimg] is the PNG encoder's
    result on a canvas of the colour frame's size that shows, at every
    position, what the bitmap keeps of the colour frame's red, green and
    blue with the alpha frame's red as alpha (alpha 0 where the alpha
    frame does not reach): that alpha exactly, the colour unchanged where
    the alpha is 255, and transparent black where it is 0. *)
Theorem decode_encodes_composite
    (P : Platform) (buf : Buffer) (h : MilimgHeader) (payload : Buffer)
    (cf af : VideoFrame) :
  premultipliedCanvas P ->
  parseMilimgContainer buf = Return h ->
  version h = 1 -> alphaPayload h = Some payload ->
  decodeAV1Frame P (colorPayload h) = Return (Some cf) ->
  decodeAV1Frame P payload = Return (Some af) ->
  (forall role : CanvasRole, getContext2d P role = true) ->
  (0 < displayWidth cf)%nat -> (0 < displayHeight cf)%nat ->
  opaqueFrame cf -> opaqueFrame af ->
  exists canvas : OffscreenCanvas,
    decodeMilimg P buf = convertToBlob P canvas /\
    canvasWidth canvas = displayWidth cf /\
    canvasHeight canvas = displayHeight cf /\
    forall x y : nat, (x < displayWidth cf)%nat -> (y < displayHeight cf)%nat ->
      let shown := pixelOfData (bitmap canvas) (y * displayWidth cf + x) in
      shown = canvasStore P (composite cf af x y) /\
      alpha shown = alpha (composite cf af x y) /\
      (alpha (composite cf af x y) = xff -> shown = composite cf af x y) /\
      (alpha (composite cf af x y) = x00 -> shown = transparentBlack).
Proof.
  intros Hcanvas Hparse Hv Hpayload Hcolor Halpha Hctx Hw Hh Hcf Haf.
  destruct (combine_spec P cf af Hcanvas (Hctx ColorCanvas) (Hctx AlphaCanvas)
              Hw Hh Hcf Haf)
    as (out & Hout & Hwo & Hho & Hpix).
  exists (drawImage (newOffscreenCanvas (displayWidth out) (displayHeight out)) out).
  split.
  - unfold decodeMilimg. rewrite Hparse. cbn [mbind Completion_bind].
    rewrite Hcolor, Hv, Hpayload. cbn [mbind Completion_bind Z.eqb Pos.eqb].
    rewrite Halpha. cbn [mbind Completion_bind].
    rewrite Hout. cbn [mbind Completion_bind].
    apply frameToPNG_drawn, Hctx.
  - split; [exact Hwo |]. split; [exact Hho |].
    intros x y Hx Hy. cbv zeta.
    assert (Hshown :
      pixelOfData
        (bitmap (drawImage (newOffscreenCanvas (displayWidth out) (displayHeight out)) out))
        (y * displayWidth cf + x) = canvasStore P (composite cf af x y)).
    { rewrite <- Hpix by assumption. rewrite <- Hwo. apply drawn_own_pixel; lia. }
    rewrite Hshown. destruct Hcanvas as (Hkeep & Hopaque & Hclear).
    split; [reflexivity |]. split; [apply Hkeep |]. split; [apply Hopaque | apply Hclear].
Qed.

Lemma decode_encodes_composite_witness :
  exists canvas : OffscreenCanvas,
    decodeMilimg toyPlatform completeV1 = convertToBlob toyPlatform canvas /\
    canvasWidth canvas = 2%nat /\ canvasHeight canvas = 2%nat /\
    forall x y : nat, (x < 2)%nat -> (y < 2)%nat ->
      pixelOfData (bitmap canvas) (y * 2 + x) =
      {| red := x00; green := x00; blue := x00; alpha := x01 |}.
Proof.
  destruct (decode_encodes_composite toyPlatform completeV1
              {| version := 1; width := 3; height := 2; colorPayload := [x30; x39];
                 alphaPayload := Some [x01; x02; x03] |}
              [x01; x02; x03]
              (solidFrame 2 2 {| red := x30; green := x30; blue := x30; alpha := xff |})
              (solidFrame 2 2 {| red := x01; green := x01; blue := x01; alpha := xff |})
              premultiplied8_laws
              eq_refl eq_refl eq_refl eq_refl eq_refl (fun _ => eq_refl)
              ltac:(cbn; lia) ltac:(cbn; lia)
              (fun _ _ _ _ => eq_refl) (fun _ _ _ _ => eq_refl))
    as (canvas & Hpng & Hw & Hh & Hpix).
  exists canvas. split; [exact Hpng |]. split; [exact Hw |]. split; [exact Hh |].
  intros x y Hx Hy. destruct (Hpix x y Hx Hy) as [Hshown _].
  cbn [displayWidth solidFrame] in Hshown. rewrite Hshown. unfold composite.
  cbn [displayWidth displayHeight pixelAt solidFrame red green blue].
  destruct (Nat.ltb_spec x 2); [| lia]. destruct (Nat.ltb_spec y 2); [| lia].
  reflexivity.
Defined.

(** X12: [decodeMilimg] never looks at the header's width and height: two
    well-formed containers that differ only in those two fields decode to
    the same result (the size of the output comes from the decoded colour
    frame). *)
Theorem decode_ignores_declared_dimensions
    (P : Platform) (w h w' h' : Z) (color : Buffer) (alpha : option Buffer) :
  0 <= w < 2 ^ 32 -> 0 <= h < 2 ^ 32 -> 0 <= w' < 2 ^ 32 -> 0 <= h' < 2 ^ 32 ->
  Z.of_nat (length (container w h color alpha)) < 2 ^ 32 ->
  decodeMilimg P (container w' h' color alpha) =
  decodeMilimg P (container w h color alpha).
Proof.
  intros Hw Hh Hw' Hh' Hlen.
  assert (length (container w' h' color alpha) = length (container w h color alpha))
    as Hsame
    by (unfold container; rewrite !length_app, !length_container_prefix; reflexivity).
  unfold decodeMilimg.
  rewrite (parse_container_header w h) by assumption.
  rewrite (parse_container_header w' h') by (try assumption; rewrite Hsame; assumption).
  reflexivity.
Qed.

Lemma decode_ignores_declared_dimensions_witness :
  decodeMilimg toyPlatform (container 0 4000000000 [x07] None) =
  decodeMilimg toyPlatform (container 2 2 [x07] None).
Proof.
  apply (decode_ignores_declared_dimensions toyPlatform 2 2 0 4000000000 [x07] None);
    vm_compute; split; congruence.
Defined.

(** X13: [decodeMilimg] ignores what follows a whole container: for an
    accepted buffer shorter than 2^32 bytes that holds every byte its size
    fields declare, appending any bytes leaves the result unchanged. *)
Theorem decode_ignores_trailing_bytes
    (P : Platform) (B T : Buffer) (h : MilimgHeader) :
  parseMilimgContainer B = Return h ->
  Z.of_nat (length B) < 2 ^ 32 -> complete B ->
  decodeMilimg P (B ++ T) = decodeMilimg P B.
Proof.
  intros Hparse H32 Hcomplete. unfold decodeMilimg.
  rewrite (parse_app_complete B T h Hparse H32 Hcomplete), Hparse.
  reflexivity.
Qed.

Lemma decode_ignores_trailing_bytes_witness :
  decodeMilimg toyPlatform (completeV1 ++ [xde; xad]) = decodeMilimg toyPlatform completeV1.
Proof.
  apply (decode_ignores_trailing_bytes toyPlatform completeV1 [xde; xad]
           {| version := 1; width := 3; height := 2; colorPayload := [x30; x39];
              alphaPayload := Some [x01; x02; x03] |}).
  - reflexivity.
  - vm_compute. reflexivity.
  - split; [vm_compute; discriminate |]. intros _. vm_compute. discriminate.
Defined.

(** X14: [decodeMilimg] returns a PNG only if the container parses, its
    colour payload is not empty and decodes to a frame, and the output
    canvas gets its 2D context; the PNG is then the encoder's result on a
    canvas whose size is the decoded colour frame's display size. *)
Theorem decode_success_conditions (P : Platform) (buf png : Buffer) :
  decodeMilimg P buf = Return png ->
  exists (h : MilimgHeader) (cf : VideoFrame) (canvas : OffscreenCanvas),
    parseMilimgContainer buf = Return h /\
    colorPayload h <> [] /\
    decodeAV1Frame P (colorPayload h) = Return (Some cf) /\
    getContext2d P PngCanvas = true /\
    convertToBlob P canvas = Return png /\
    canvasWidth canvas = displayWidth cf /\
    canvasHeight canvas = displayHeight cf.
Proof.
  unfold decodeMilimg.
  destruct (parseMilimgContainer buf) as [h | e]; cbn [mbind Completion_bind];
    [| discriminate].
  destruct (decodeAV1Frame P (colorPayload h)) as [[cf |] | e] eqn:Hcolor;
    cbn [mbind Completion_bind]; try discriminate.
  assert (colorPayload h <> []) as Hne.
  { intros Hempty. rewrite Hempty in Hcolor. discriminate. }
  assert (forall final : VideoFrame,
            displayWidth final = displayWidth cf ->
            displayHeight final = displayHeight cf ->
            frameToPNG P final = Return png ->
            exists (h0 : MilimgHeader) (cf0 : VideoFrame) (canvas : OffscreenCanvas),
              Return h = Return h0 /\ colorPayload h0 <> [] /\
              decodeAV1Frame P (colorPayload h0) = Return (Some cf0) /\
              getContext2d P PngCanvas = true /\
              convertToBlob P canvas = Return png /\
              canvasWidth canvas = displayWidth cf0 /\
              canvasHeight canvas = displayHeight cf0) as Hfinal.
  { intros final Hw Hh. unfold frameToPNG.
    destruct (getContext2d P PngCanvas); cbn [negb]; [| discriminate].
    intros Hpng. exists h, cf. eexists. repeat split; try eassumption. }
  destruct (version h =? 1); [| apply Hfinal; reflexivity].
  destruct (alphaPayload h) as [payload |]; [| apply Hfinal; reflexivity].
  destruct (decodeAV1Frame P payload) as [[af |] | e]; cbn [mbind Completion_bind];
    [| apply Hfinal; reflexivity | discriminate].
  destruct (combineRGBAFrames P cf af) as [out | e] eqn:Hout;
    cbn [mbind Completion_bind]; [| discriminate].
  apply Hfinal.
  - revert Hout. unfold combineRGBAFrames. cbv zeta.
    destruct (getContext2d P ColorCanvas); cbn [negb]; [| discriminate].
    destruct (getImageData P (drawImage _ cf)); cbn [mbind Completion_bind];
      [| discriminate].
    destruct (getContext2d P AlphaCanvas); cbn [negb]; [| discriminate].
    destruct (getImageData P (drawImage _ af)); cbn [mbind Completion_bind];
      [| discriminate].
    intros [= <-]. reflexivity.
  - revert Hout. unfold combineRGBAFrames. cbv zeta.
    destruct (getContext2d P ColorCanvas); cbn [negb]; [| discriminate].
    destruct (getImageData P (drawImage _ cf)); cbn [mbind Completion_bind];
      [| discriminate].
    destruct (getContext2d P AlphaCanvas); cbn [negb]; [| discriminate].
    destruct (getImageData P (drawImage _ af)); cbn [mbind Completion_bind];
      [| discriminate].
    intros [= <-]. reflexivity.
Qed.

Lemma decode_success_conditions_witness :
  exists (h : MilimgHeader) (cf : VideoFrame) (canvas : OffscreenCanvas),
    parseMilimgContainer completeV1 = Return h /\
    colorPayload h <> [] /\
    decodeAV1Frame toyPlatform (colorPayload h) = Return (Some cf) /\
    getContext2d toyPlatform PngCanvas = true /\
    convertToBlob toyPlatform canvas =
      Return (concat (replicate 4 [x00; x00; x00; x01])) /\
    canvasWidth canvas = displayWidth cf /\
    canvasHeight canvas = displayHeight cf.
Proof.
  apply (decode_success_conditions toyPlatform completeV1). reflexivity.
Defined.

(** X15: a rejection for the magic or for the version is final: once the
    buffer holds the bytes the check reads (8 for the magic), appending
    bytes does not change it.  (A [RangeError] is not final: more bytes can
    turn it into a header.) *)
Theorem parse_rejection_is_stable (B T : Buffer) :
  (8 <= Z.of_nat (length B) ->
   parseMilimgContainer B = Throw invalidMagic ->
   parseMilimgContainer (B ++ T) = Throw invalidMagic) /\
  (forall v : Z,
     parseMilimgContainer B = Throw (unsupportedVersion v) ->
     parseMilimgContainer (B ++ T) = Throw (unsupportedVersion v)).
Proof.
  split.
  - intros H8 Hfail. apply parse_magic_iff in Hfail. apply parse_magic_iff.
    unfold magic_ok in *. rewrite take8_app by assumption. exact Hfail.
  - intros v Hfail. rewrite <- Hfail.
    rewrite parse_eq in Hfail. rewrite (parse_eq B), (parse_eq (B ++ T)).
    cbv zeta in *.
    destruct (magic_ok B) eqn:Hmagic; cbn [negb] in *; [| discriminate Hfail].
    rewrite (magic_ok_app B T Hmagic). cbn [negb].
    assert (Z.of_nat (length B) <= Z.of_nat (length (B ++ T)))
      by (rewrite length_app; lia).
    destruct (Z.ltb_spec (Z.of_nat (length B)) 12); [discriminate Hfail |].
    destruct (Z.ltb_spec (Z.of_nat (length (B ++ T))) 12); [lia |].
    rewrite (field_app B T 8 4) by lia.
    destruct (negb (field B 8 4 =? 0) && negb (field B 8 4 =? 1)); [reflexivity |].
    exfalso. revert Hfail.
    destruct (_ <? 28); [discriminate |].
    destruct (_ =? 1); [| discriminate].
    destruct (_ <? _); discriminate.
Qed.

Lemma parse_rejection_is_stable_witness :
  parseMilimgContainer (version2 ++ [x00; x01; x02]) = Throw (unsupportedVersion 2) /\
  parseMilimgContainer (container_prefix "Milimg01" 0 3 2 0 ++ [x00]) = Throw invalidMagic.
Proof.
  split.
  - apply (proj2 (parse_rejection_is_stable version2 [x00; x01; x02]) 2). reflexivity.
  - apply (proj1 (parse_rejection_is_stable (container_prefix "Milimg01" 0 3 2 0) [x00])).
    + vm_compute. discriminate.
    + reflexivity.
Defined.
